(** * Verification of the resume/job-description scoring core

    Shallow embedding of [backend/ml]: [skill_extractor.py], [scorer.py],
    [similarity.py] and [pipeline.py].  Python strings are modelled as
    Stdlib [string]s of ASCII characters; Python floats are modelled as
    exact rationals [Q]. *)

From Stdlib Require Import List Bool Arith Lia ZArith QArith Qminmax Qround Lqa.
From Stdlib Require Import Strings.String Strings.Ascii DecimalString.
From Stdlib Require Import Sorting.Permutation Sorting.Sorted.
Import ListNotations.

Open Scope string_scope.

(** ** Character classes and Python string methods (ASCII part) *)

Module PyStr.

(** [str.isspace] on ASCII characters (also used by [str.strip] and the
    regex class [\s]): tab, LF, VT, FF, CR, the separators 0x1c-0x1f and space. *)
Definition is_space (c : ascii) : bool :=
  let n := nat_of_ascii c in
  (Nat.leb 9 n && Nat.leb n 13) || (Nat.leb 28 n && Nat.leb n 32).

Definition is_digit (c : ascii) : bool :=
  let n := nat_of_ascii c in Nat.leb 48 n && Nat.leb n 57.

Definition is_lower (c : ascii) : bool :=
  let n := nat_of_ascii c in Nat.leb 97 n && Nat.leb n 122.

Definition is_upper (c : ascii) : bool :=
  let n := nat_of_ascii c in Nat.leb 65 n && Nat.leb n 90.

(** [str.lower] on one character. *)
Definition lower_char (c : ascii) : ascii :=
  if is_upper c then ascii_of_nat (nat_of_ascii c + 32) else c.

Fixpoint lower (s : string) : string :=
  match s with
  | EmptyString => EmptyString
  | String c s' => String (lower_char c) (lower s')
  end.

Fixpoint lstrip (s : string) : string :=
  match s with
  | EmptyString => EmptyString
  | String c s' => if is_space c then lstrip s' else s
  end.

Fixpoint rev_str (s : string) (acc : string) : string :=
  match s with
  | EmptyString => acc
  | String c s' => rev_str s' (String c acc)
  end.

Definition rstrip (s : string) : string :=
  rev_str (lstrip (rev_str s EmptyString)) EmptyString.

(** [str.strip()] *)
Definition strip (s : string) : string := rstrip (lstrip s).

(** [a in b] for strings: substring test. *)
Fixpoint contains (needle hay : string) : bool :=
  match hay with
  | EmptyString => String.prefix needle hay
  | String _ hay' => String.prefix needle hay || contains needle hay'
  end.

(** [s.replace(old_c, new_c)] for single characters. *)
Fixpoint replace_char (old new : ascii) (s : string) : string :=
  match s with
  | EmptyString => EmptyString
  | String c s' =>
      String (if Ascii.eqb c old then new else c) (replace_char old new s')
  end.

(** [s.split(sep)] for a one-character separator: the pieces between
    separators, always at least one piece. *)
Fixpoint split_on (sep : ascii) (s : string) : list string :=
  match s with
  | EmptyString => [EmptyString]
  | String c s' =>
      match split_on sep s' with
      | [] => [] (* unreachable *)
      | cur :: rest =>
          if Ascii.eqb c sep then EmptyString :: cur :: rest
          else String c cur :: rest
      end
  end.

(** Python truthiness of [text.strip()]. *)
Definition is_blank (s : string) : bool :=
  match strip s with EmptyString => true | _ => false end.

(** Characters of a string. *)
Fixpoint chars (s : string) : list ascii :=
  match s with
  | EmptyString => []
  | String c s' => c :: chars s'
  end.

(** [sorted(xs)] on strings: Python compares strings by code points, which is
    [String.compare] on ASCII.  Insertion sort; Python's sort is stable and
    yields the same list. *)
Fixpoint insert (x : string) (l : list string) : list string :=
  match l with
  | [] => [x]
  | y :: l' => if String.leb x y then x :: y :: l' else y :: insert x l'
  end.

Fixpoint sorted (l : list string) : list string :=
  match l with
  | [] => []
  | x :: l' => insert x (sorted l')
  end.

(** [d[key]] on a dict given by its items in insertion order; [None] is
    the [KeyError]. *)
Fixpoint dict_get {A} (key : string) (d : list (string * A)) : option A :=
  match d with
  | [] => None
  | (k, v) :: d' => if String.eqb key k then Some v else dict_get key d'
  end.

End PyStr.

(** ** [constants.py]: the skill vocabulary *)

Module Constants.

(** [RECOGNIZED_SKILLS]: a Python set literal; its 114 distinct elements,
    listed here in ascending order (a set has no order of its own). *)
Definition RECOGNIZED_SKILLS : list string := [
  "algorithms"; "anomaly detection"; "artificial intelligence";
  "attention mechanism"; "aws"; "azure"; "bash"; "bert"; "c"; "c++";
  "cassandra"; "catboost"; "ci/cd"; "clean architecture";
  "cloud functions"; "computer networks"; "computer vision"; "confluence";
  "cv"; "data analysis"; "data engineering"; "data preprocessing";
  "data science"; "data structures"; "data visualization"; "dbms";
  "debugging"; "deep learning"; "design patterns"; "distributed systems";
  "django"; "docker"; "docker compose"; "dynamodb"; "ec2"; "elasticsearch";
  "express"; "fastapi"; "feature engineering"; "flask"; "gcp"; "git";
  "github"; "github actions"; "gitlab"; "go"; "golang"; "gpt"; "graphql";
  "helm"; "huggingface"; "information retrieval"; "integration testing";
  "java"; "javascript"; "jira"; "keras"; "kotlin"; "kubernetes"; "lambda";
  "lightgbm"; "linux"; "llms"; "machine learning"; "matlab";
  "microservices"; "mlops"; "model deployment"; "model monitoring";
  "mongodb"; "mysql"; "natural language processing"; "nlp"; "nltk";
  "node.js"; "numpy"; "object oriented programming"; "oop"; "opencv";
  "operating systems"; "pandas"; "parallel computing";
  "performance optimization"; "postgresql"; "power bi"; "python";
  "pytorch"; "r"; "recommendation systems"; "redis";
  "reinforcement learning"; "rest api"; "rust"; "s3"; "scala";
  "scikit-learn"; "scipy"; "spacy"; "speech recognition"; "sql"; "sqlite";
  "supervised learning"; "system design"; "tableau"; "tensorflow";
  "text classification"; "time series forecasting"; "transformer models";
  "transformers"; "typescript"; "unit testing"; "unix";
  "unsupervised learning"; "xgboost"].

(** Scoring weights. *)
Definition SEMANTIC_SIMILARITY_WEIGHT : Q := 6 # 10.
Definition SKILL_MATCH_WEIGHT : Q := 3 # 10.
Definition EXPERIENCE_MATCH_WEIGHT : Q := 1 # 10.

(** [SKILL_CATEGORIES]: the dict's items in insertion order; each value is
    a set literal, listed with its distinct elements. *)
Definition SKILL_CATEGORIES : list (string * list string) := [
  ("core_ml", ["machine learning"; "ml"; "deep learning";
               "neural networks"; "nlp"; "computer vision"]);
  ("backend", ["python"; "fastapi"; "django"; "flask"; "rest api"]);
  ("data", ["sql"; "mongodb"; "pandas"; "numpy"]);
  ("devops", ["docker"; "kubernetes"; "aws"; "gcp"; "azure"])].

Definition CATEGORY_WEIGHTS : list (string * Q) := [
  ("core_ml", 4 # 10); ("backend", 25 # 100); ("data", 2 # 10); ("devops", 15 # 100)].

End Constants.

(** ** [skill_extractor.py] *)

Module SkillExtractor.
Import PyStr Constants.

(** The regex class [[^a-z0-9+ ]] of [_normalize_text]: kept characters. *)
Definition keep_char (c : ascii) : bool :=
  is_lower c || is_digit c || Ascii.eqb c "+"%char || Ascii.eqb c " "%char.

(** [re.sub(r"[^a-z0-9+ ]", " ", s)] *)
Fixpoint sub_nonkept (s : string) : string :=
  match s with
  | EmptyString => EmptyString
  | String c s' => String (if keep_char c then c else " "%char) (sub_nonkept s')
  end.

(** [_normalize_text(text)] *)
Definition _normalize_text (text : string) : string :=
  sub_nonkept (lower text).

(** [extract_skills(text)]: the set is represented by the list of the
    vocabulary elements it contains (no duplicates, since the vocabulary
    has none). *)
Definition extract_skills (text : string) : list string :=
  if is_blank text then []
  else
    let normalized_text := _normalize_text text in
    filter (fun skill => contains skill normalized_text) RECOGNIZED_SKILLS.

Definition mem (x : string) (l : list string) : bool :=
  existsb (String.eqb x) l.

(** [a & b] and [a - b] on sets represented as lists. *)
Definition inter (a b : list string) : list string :=
  filter (fun x => mem x a) b.
Definition diff (a b : list string) : list string :=
  filter (fun x => negb (mem x b)) a.

(** Python's [len(a) / len(b)] on two ints: true division. *)
Definition div_len (a b : nat) : Q := inject_Z (Z.of_nat a) / inject_Z (Z.of_nat b).

(** [match_skills(resume_text, job_description_text)] *)
Definition match_skills (resume_text job_description_text : string)
  : list string * list string * Q :=
  let resume_skills := extract_skills resume_text in
  let jd_required_skills := extract_skills job_description_text in
  match jd_required_skills with
  | [] => ([], [], 1)
  | _ =>
      let matched_skills := inter resume_skills jd_required_skills in
      let missing_skills := diff jd_required_skills resume_skills in
      (sorted matched_skills, sorted missing_skills,
       div_len (List.length matched_skills) (List.length jd_required_skills))
  end.

End SkillExtractor.

(** ** [scorer.py] *)

Module Scorer.
Import PyStr Constants.

(** Value of a digit string. *)
Fixpoint digits_value (acc : Z) (s : string) : Z :=
  match s with
  | EmptyString => acc
  | String c s' => digits_value (acc * 10 + (Z.of_nat (nat_of_ascii c) - 48)) s'
  end.

(** [\d+] at the start of [s] (greedy): the digits taken and the rest. *)
Fixpoint span_digits (s : string) : string * string :=
  match s with
  | String c s' =>
      if is_digit c then let '(d, r) := span_digits s' in (String c d, r)
      else (EmptyString, s)
  | EmptyString => (EmptyString, EmptyString)
  end.

(** [\s*] at the start of [s] (greedy). *)
Fixpoint skip_spaces (s : string) : string :=
  match s with
  | String c s' => if is_space c then skip_spaces s' else s
  | EmptyString => EmptyString
  end.

Fixpoint strip_prefix (p s : string) : option string :=
  match p, s with
  | EmptyString, _ => Some s
  | String a p', String b s' => if Ascii.eqb a b then strip_prefix p' s' else None
  | String _ _, EmptyString => None
  end.

(** [float(m)] for a match of [\d+(?:\.\d+)?] with integer digits [d] and
    fraction digits [f]. *)
Definition decimal_value (d f : string) : Q :=
  inject_Z (digits_value 0 d)
  + inject_Z (digits_value 0 f) / inject_Z (10 ^ Z.of_nat (String.length f)).

(** An attempt of the pattern [(\d+(?:\.\d+)?)\s*\+?\s*years?] at the start
    of [s]: the captured number and the remaining text after the match.
    The greedy reading below is the regex's only match: backtracking into
    any quantifier leaves a digit, [.] or a space where the next element
    of the pattern cannot start. *)
Definition match_year (s : string) : option (Q * string) :=
  let '(d, r1) := span_digits s in
  match d with
  | EmptyString => None
  | _ =>
      let '(num, r2) :=
        match r1 with
        | String "."%char r1' =>
            let '(f, r1'') := span_digits r1' in
            match f with
            | EmptyString => (decimal_value d EmptyString, r1)
            | _ => (decimal_value d f, r1'')
            end
        | _ => (decimal_value d EmptyString, r1)
        end in
      let r3 := skip_spaces r2 in
      let r4 := match r3 with String "+"%char r => r | _ => r3 end in
      let r5 := skip_spaces r4 in
      match strip_prefix "year" r5 with
      | Some r6 => Some (num, match r6 with String "s"%char r => r | _ => r6 end)
      | None => None
      end
  end.

(** [re.findall(pattern, s)]: scan left to right; after a match resume at its
    end, otherwise at the next character.  [skip] counts the characters of
    the last match still to pass over. *)
Fixpoint findall_from (skip : nat) (s : string) : list Q :=
  match s with
  | EmptyString => []
  | String _ s' =>
      match skip with
      | S k => findall_from k s'
      | O =>
          match match_year s with
          | Some (q, rest) => q :: findall_from (String.length s - String.length rest - 1) s'
          | None => findall_from 0 s'
          end
      end
  end.

Definition findall_years (s : string) : list Q := findall_from 0 s.

(** [max(xs)] on a non-empty list. *)
Definition list_max (x : Q) (l : list Q) : Q := fold_left Qmax l x.

(** [_extract_years_of_experience(text)] *)
Definition _extract_years_of_experience (text : string) : Q :=
  let text_lower := lower text in
  match findall_years text_lower with
  | [] => 0
  | y :: ys => list_max y ys
  end.

(** [compute_experience_score(resume_text, job_description_text)] *)
Definition compute_experience_score (resume_text job_description_text : string) : Q :=
  let candidate_years := _extract_years_of_experience resume_text in
  let required_years := _extract_years_of_experience job_description_text in
  if Qle_bool required_years 0 then 1
  else
    let experience_ratio := candidate_years / required_years in
    let normalized_score := Qmin experience_ratio 1 in
    Qmax 0 normalized_score.

(** Python's [round(x, k)]: round half to even at [k] decimal places. *)
Definition round_half_even (x : Q) : Z :=
  let f := Qfloor x in
  let r := x - inject_Z f in
  if negb (Qle_bool (1 # 2) r) then f
  else if negb (Qle_bool r (1 # 2)) then (f + 1)%Z
  else if Z.even f then f else (f + 1)%Z.

Definition round_digits (k : nat) (x : Q) : Q :=
  let p := inject_Z (10 ^ Z.of_nat k) in
  inject_Z (round_half_even (x * p)) / p.

(** [compute_final_score(semantic_similarity, skill_overlap, experience_score)] *)
Definition compute_final_score (semantic_similarity skill_overlap experience_score : Q) : Q :=
  let weighted_semantic := SEMANTIC_SIMILARITY_WEIGHT * semantic_similarity in
  let weighted_skills := SKILL_MATCH_WEIGHT * skill_overlap in
  let weighted_experience := EXPERIENCE_MATCH_WEIGHT * experience_score in
  let raw_score := weighted_semantic + weighted_skills + weighted_experience in
  let fit_score_percentage := raw_score * 100 in
  round_digits 2 fit_score_percentage.

(** The loop of [compute_weighted_skill_score] over
    [SKILL_CATEGORIES.items()], carrying [score] and [total_weight]; the sets
    [skills & required_skills] and [skills & matched_skills] are the
    category's elements lying in the other set.  [None] is the [KeyError]
    of [CATEGORY_WEIGHTS[category]]. *)
Fixpoint weighted_skill_loop (matched_skills required_skills : list string)
    (categories : list (string * list string)) (score total_weight : Q)
    : option (Q * Q) :=
  match categories with
  | [] => Some (score, total_weight)
  | (category, skills) :: rest =>
      let required := SkillExtractor.inter required_skills skills in
      match required with
      | [] => weighted_skill_loop matched_skills required_skills rest score total_weight
      | _ =>
          let matched := SkillExtractor.inter matched_skills skills in
          let ratio := SkillExtractor.div_len (List.length matched) (List.length required) in
          match dict_get category CATEGORY_WEIGHTS with
          | None => None
          | Some weight =>
              weighted_skill_loop matched_skills required_skills rest
                (score + ratio * weight) (total_weight + weight)
          end
      end
  end.

(** [compute_weighted_skill_score(matched_skills, required_skills)] *)
Definition compute_weighted_skill_score (matched_skills required_skills : list string)
  : option Q :=
  match weighted_skill_loop matched_skills required_skills SKILL_CATEGORIES 0 0 with
  | None => None
  | Some (score, total_weight) =>
      Some (if negb (Qle_bool total_weight 0) then score / total_weight else 1)
  end.

End Scorer.

(** ** The claim's reading of the years pattern

    Used only to compare with [Scorer._extract_years_of_experience]: a number
    "immediately followed by optional '+', optional whitespace, and the word
    year/years", taken at every position of the lowercased text. *)

Module YearsReading.
Import PyStr Scorer.

Definition claim_match_year (s : string) : option Q :=
  let '(d, r1) := span_digits s in
  match d with
  | EmptyString => None
  | _ =>
      let '(num, r2) :=
        match r1 with
        | String "."%char r1' =>
            let '(f, r1'') := span_digits r1' in
            match f with
            | EmptyString => (decimal_value d EmptyString, r1)
            | _ => (decimal_value d f, r1'')
            end
        | _ => (decimal_value d EmptyString, r1)
        end in
      let r3 := match r2 with String "+"%char r => r | _ => r2 end in
      match strip_prefix "year" (skip_spaces r3) with
      | Some _ => Some num
      | None => None
      end
  end.

Fixpoint claim_years_all (s : string) : list Q :=
  match s with
  | EmptyString => []
  | String _ s' =>
      match claim_match_year s with
      | Some q => q :: claim_years_all s'
      | None => claim_years_all s'
      end
  end.

Definition claim_extract_years (text : string) : Q :=
  match claim_years_all (lower text) with
  | [] => 0
  | y :: ys => list_max y ys
  end.

End YearsReading.

(** ** [similarity.py] *)

Module Similarity.

(** A float entry of a NumPy array: a finite value, or NaN / infinity. *)
Inductive num := Fin (q : Q) | NaN | Inf.

(** A NumPy array: its shape and its entries in row-major order. *)
Record ndarray := mk_ndarray { shape : list nat; flat : list num }.

Definition size (a : ndarray) : nat := fold_right Nat.mul 1%nat (shape a).
Definition ndim (a : ndarray) : nat := List.length (shape a).

(** Well-formed arrays hold exactly [size] entries. *)
Definition wf (a : ndarray) : Prop := List.length (flat a) = size a.

(** Both error kinds are a Python [ValueError]: [InvalidInput] is raised by
    [_validate_embeddings], [NotFinite] by scikit-learn's input check inside
    [cosine_similarity]. *)
Inductive exn := InvalidInput (msg : string) | NotFinite (msg : string).

Definition result (A : Type) : Type := (exn + A)%type.
Definition ret {A} (x : A) : result A := inr x.
Definition raise {A} (e : exn) : result A := inl e.
Definition bind {A B} (m : result A) (k : A -> result B) : result B :=
  match m with inl e => inl e | inr x => k x end.
Notation "x <- m ;; k" := (bind m (fun x => k)) (at level 61, m at next level, right associativity).

(** [_validate_embeddings(source_embeddings, target_embeddings)] *)
Definition _validate_embeddings (source_embeddings target_embeddings : ndarray) : result unit :=
  if Nat.eqb (size source_embeddings) 0 then
    raise (InvalidInput "source_embeddings is empty. Need at least one source sentence.")
  else if Nat.eqb (size target_embeddings) 0 then
    raise (InvalidInput "target_embeddings is empty. Need at least one target sentence.")
  else if negb (Nat.eqb (ndim source_embeddings) 2) then
    raise (InvalidInput "source_embeddings must be 2D array")
  else if negb (Nat.eqb (ndim target_embeddings) 2) then
    raise (InvalidInput "target_embeddings must be 2D array")
  else
    let source_dim := nth 1 (shape source_embeddings) 0%nat in
    let target_dim := nth 1 (shape target_embeddings) 0%nat in
    if negb (Nat.eqb source_dim target_dim) then
      raise (InvalidInput "Embedding dimension mismatch")
    else ret tt.

(** The [n] rows of [m] entries of a row-major 2-D array. *)
Fixpoint rows_of (n m : nat) (l : list num) : list (list num) :=
  match n with
  | O => []
  | S n' => firstn m l :: rows_of n' m (skipn m l)
  end.

Definition rows (a : ndarray) : list (list num) :=
  rows_of (nth 0 (shape a) 0%nat) (nth 1 (shape a) 0%nat) (flat a).

Definition finite (x : num) : option Q :=
  match x with Fin q => Some q | _ => None end.

Fixpoint all_finite (l : list num) : option (list Q) :=
  match l with
  | [] => Some []
  | x :: l' =>
      match finite x, all_finite l' with
      | Some q, Some qs => Some (q :: qs)
      | _, _ => None
      end
  end.

Fixpoint rows_finite (rs : list (list num)) : option (list (list Q)) :=
  match rs with
  | [] => Some []
  | r :: rs' =>
      match all_finite r, rows_finite rs' with
      | Some q, Some qs => Some (q :: qs)
      | _, _ => None
      end
  end.

Section Cosine.

(** The pairwise kernel of scikit-learn's [cosine_similarity] on two finite
    rows (row normalisation followed by a dot product).  Every result below
    holds for any kernel. *)
Variable cosine : list Q -> list Q -> Q.

(** [sklearn.metrics.pairwise.cosine_similarity(X, Y)] on 2-D arrays: the
    input check rejects NaN and infinite entries, then the
    [len(X) x len(Y)] matrix of kernel values. *)
Definition cosine_similarity (X Y : ndarray) : result (list (list Q)) :=
  match rows_finite (rows X), rows_finite (rows Y) with
  | Some xs, Some ys => ret (map (fun x => map (cosine x) ys) xs)
  | _, _ => raise (NotFinite "Input contains NaN or infinity.")
  end.

(** [row.max()] for the rows of the matrix (non-empty after validation). *)
Definition row_max (r : list Q) : Q :=
  match r with [] => 0 | x :: r' => fold_left Qmax r' x end.

Definition sum (l : list Q) : Q := fold_left Qplus l 0.

(** [v.mean()] *)
Definition mean (l : list Q) : Q := sum l / inject_Z (Z.of_nat (List.length l)).

(** [np.clip(x, lo, hi)] *)
Definition clip (x lo hi : Q) : Q := Qmin (Qmax x lo) hi.

(** [average_max_cosine_similarity(source_embeddings, target_embeddings)] *)
Definition average_max_cosine_similarity (source_embeddings target_embeddings : ndarray)
  : result Q :=
  _ <- _validate_embeddings source_embeddings target_embeddings ;;
  similarity_matrix <- cosine_similarity source_embeddings target_embeddings ;;
  let max_similarities := map row_max similarity_matrix in
  let average_similarity := mean max_similarities in
  ret (clip average_similarity 0 1).

End Cosine.

End Similarity.

(** ** [semantic_skill_match] of [skill_extractor.py] *)

Module SemanticSkills.
Import PyStr SkillExtractor.

(** A 2-D NumPy float array with finite entries: its number of columns
    ([shape[1]]) and its rows. *)
Record matrix := mk_matrix { ncols : nat; mrows : list (list Q) }.

(** The [ValueError]s NumPy raises here: misaligned shapes in [np.dot] and
    [np.max] of an empty array. *)
Inductive np_error := ShapeMismatch | ZeroSizeReduction.

(** Dot product of two vectors of equal length. *)
Definition vdot (r v : list Q) : Q :=
  fold_left Qplus (map (fun '(a, b) => a * b) (combine r v)) 0.

(** [np.dot(m, v)] for a 2-D array [m] and a 1-D array [v]. *)
Definition np_dot (m : matrix) (v : list Q) : np_error + list Q :=
  if Nat.eqb (ncols m) (List.length v) then inr (map (fun r => vdot r v) (mrows m))
  else inl ShapeMismatch.

(** [np.max(v)] for a 1-D array. *)
Definition np_max (v : list Q) : np_error + Q :=
  match v with
  | [] => inl ZeroSizeReduction
  | x :: v' => inr (fold_left Qmax v' x)
  end.

(** [s.add(x)] on a set represented by a duplicate-free list. *)
Definition set_add (x : string) (s : list string) : list string :=
  if mem x s then s else s ++ [x].

(** The loop over [skill_embeddings.items()]. *)
Fixpoint semantic_loop (items : list (string * list Q)) (resume_embeddings : matrix)
    (threshold : Q) (matched : list string) : np_error + list string :=
  match items with
  | [] => inr matched
  | (skill, emb) :: rest =>
      match np_dot resume_embeddings emb with
      | inl e => inl e
      | inr sims =>
          match np_max sims with
          | inl e => inl e
          | inr mx =>
              semantic_loop rest resume_embeddings threshold
                (if Qle_bool threshold mx then set_add skill matched else matched)
          end
      end
  end.

(** [semantic_skill_match(skill_embeddings, resume_embeddings, threshold)]:
    the dict is given by its items. *)
Definition semantic_skill_match (skill_embeddings : list (string * list Q))
    (resume_embeddings : matrix) (threshold : Q) : np_error + list string :=
  semantic_loop skill_embeddings resume_embeddings threshold [].

End SemanticSkills.

(** ** [pipeline.py] *)

Module Pipeline.
Import PyStr SkillExtractor Scorer Similarity.

(** [_tokenize_into_sentences(text)] *)
Definition _tokenize_into_sentences (text : string) : list string :=
  if is_blank text then [""]
  else
    let sentences :=
      flat_map (fun s => if is_blank s then [] else [strip s])
               (split_on "."%char (replace_char "010"%char " "%char text)) in
    match sentences with
    | [] => [text]
    | _ => sentences
    end.

(** Decimal rendering of an [int] ([str(n)]). *)
Definition str_of_nat (n : nat) : string :=
  DecimalString.NilZero.string_of_uint (Nat.to_uint n).

Record EvaluationResult := {
  fit_score : Q;
  semantic_similarity_score : Q;
  matched_skills : list string;
  missing_skills : list string;
  experience_match_score : Q;
  explanation : string
}.

Section Orchestrator.

(** The embedding model ([EmbeddingModel.encode]), the kernel of
    [cosine_similarity], and the float rendering [f"{x:.2f}"]. *)
Variable encode : list string -> ndarray.
Variable cosine : list Q -> list Q -> Q.
Variable format_2f : Q -> string.

(** [_generate_explanation(...)] *)
Definition _generate_explanation (semantic_similarity : Q)
    (matched_skills missing_skills : list string) (experience_score : Q) : string :=
  let num_matched := List.length matched_skills in
  let missing_skills_text :=
    match missing_skills with
    | [] => "None"
    | _ => String.concat ", " missing_skills
    end in
  "Semantic match score is " ++ format_2f semantic_similarity ++ ". " ++
  "Matched " ++ str_of_nat num_matched ++ " required skill" ++
  (if Nat.eqb num_matched 1 then "" else "s") ++ ". " ++
  "Experience alignment score is " ++ format_2f experience_score ++ ". " ++
  "Missing skills include: " ++ missing_skills_text ++ ".".

(** [ResumeJobFitPipeline.evaluate(resume_text, job_description_text)] *)
Definition evaluate (resume_text job_description_text : string) : result EvaluationResult :=
  let resume_sentences := _tokenize_into_sentences resume_text in
  let jd_sentences := _tokenize_into_sentences job_description_text in
  let resume_embeddings := encode resume_sentences in
  let jd_embeddings := encode jd_sentences in
  semantic_similarity <-
    average_max_cosine_similarity cosine jd_embeddings resume_embeddings ;;
  let '(matched_skills, missing_skills, skill_overlap_ratio) :=
    match_skills resume_text job_description_text in
  let experience_score := compute_experience_score resume_text job_description_text in
  let final_fit_score :=
    compute_final_score semantic_similarity skill_overlap_ratio experience_score in
  let explanation :=
    _generate_explanation semantic_similarity matched_skills missing_skills experience_score in
  ret {| fit_score := final_fit_score;
         semantic_similarity_score := round_digits 3 semantic_similarity;
         matched_skills := matched_skills;
         missing_skills := missing_skills;
         experience_match_score := round_digits 3 experience_score;
         explanation := explanation |}.

End Orchestrator.

End Pipeline.

(** ** [app/exceptions.py] and the exception handlers of [app/main.py] *)

Module Exceptions.
Import Similarity.

(** The HTTP exceptions of the app, and [Unhandled] for any other exception
    (the [ValueError]s of the pipeline). *)
Inductive http_exn :=
| PDFExtractionError (detail : string)
| EmptyPDFError
| InvalidFileError
| EmptyJobDescriptionError
| Unhandled (e : exn).

(** The status code and detail of the JSON response of each handler. *)
Definition status_code (e : http_exn) : nat :=
  match e with
  | PDFExtractionError _ => 422
  | EmptyPDFError | InvalidFileError | EmptyJobDescriptionError => 400
  | Unhandled _ => 500
  end.

Definition detail (e : http_exn) : string :=
  match e with
  | PDFExtractionError d => d
  | EmptyPDFError => "PDF file contains no extractable text"
  | InvalidFileError => "Uploaded file is not a valid PDF"
  | EmptyJobDescriptionError => "Job description cannot be empty"
  | Unhandled _ => "Internal server error occurred"
  end.

End Exceptions.

(** ** [app/services/pdf_parser.py] *)

Module PdfParser.
Import PyStr Exceptions.

(** What PyPDF2 yields for the bytes: a [PdfReadError], another exception
    (its [str(e)]), or the [page.extract_text()] of every page. *)
Inductive pdf_outcome :=
| PdfReadError
| OtherException (msg : string)
| PageTexts (page_texts : list string).

Section Parser.

Variable read_pdf : list Byte.byte -> pdf_outcome.

(** [extract_text_from_pdf(file_content)] *)
Definition extract_text_from_pdf (file_content : list Byte.byte) : http_exn + string :=
  match read_pdf file_content with
  | PdfReadError => inl InvalidFileError
  | OtherException msg =>
      inl (PDFExtractionError ("Unexpected error during PDF extraction: " ++ msg))
  | PageTexts page_texts =>
      let text_parts := filter (fun t => negb (String.eqb t "")) page_texts in
      let full_text := String.concat " " text_parts in
      if is_blank full_text then inl EmptyPDFError else inr (strip full_text)
  end.

End Parser.

End PdfParser.

(** ** [app/services/ml_service.py] *)

Module Service.
Import PyStr Similarity Pipeline Exceptions.

Record MLService := { _pipeline_initialized : bool }.

Definition MLService_init : MLService := {| _pipeline_initialized := false |}.

Section WithModel.

Variable encode : list string -> ndarray.
Variable cosine : list Q -> list Q -> Q.
Variable format_2f : Q -> string.

(** [analyze_resume_job_fit]: a fresh pipeline's [evaluate]. *)
Definition analyze_resume_job_fit (resume_text job_description_text : string)
  : result EvaluationResult :=
  evaluate encode cosine format_2f resume_text job_description_text.

(** [MLService.evaluate_fit(self, resume_text, job_description)]: the result
    and the service's state afterwards. *)
Definition evaluate_fit (self : MLService) (resume_text job_description : string)
  : (http_exn + EvaluationResult) * MLService :=
  if is_blank job_description then (inl EmptyJobDescriptionError, self)
  else
    match analyze_resume_job_fit resume_text job_description with
    | inl e => (inl (Unhandled e), self)
    | inr result => (inr result, {| _pipeline_initialized := true |})
    end.

End WithModel.

Definition is_ready (self : MLService) : bool := _pipeline_initialized self.

End Service.

(** ** [app/models.py]: the field bounds of [EvaluationResponse] *)

Module Models.
Import Pipeline.

Definition EvaluationResponse_valid (r : EvaluationResult) : Prop :=
  (0 <= fit_score r <= 100) /\
  (0 <= semantic_similarity_score r <= 1) /\
  (0 <= experience_match_score r <= 1).

End Models.

(** ** [app/main.py]: the endpoints over the global [ml_service] *)

Module Main.
Import PyStr Similarity Pipeline Exceptions PdfParser Service.

(** [s.endswith(suffix)] *)
Definition endswith (s suffix : string) : bool :=
  String.prefix (rev_str suffix EmptyString) (rev_str s EmptyString).

Record UploadFile := { filename : string; content : list Byte.byte }.

Inductive request :=
| GetHealth
| PostEvaluate (resume : UploadFile) (job_description : string).

Inductive response :=
| HealthResponse (status : string) (ml_model_loaded : bool)
| EvaluationResponse (result : EvaluationResult)
| JSONResponse (status_code : nat) (detail : string).

Section Endpoints.

Variable read_pdf : list Byte.byte -> pdf_outcome.
Variable encode : list string -> ndarray.
Variable cosine : list Q -> list Q -> Q.
Variable format_2f : Q -> string.

(** [health_check()] *)
Definition health_check (ml_service : MLService) : response :=
  HealthResponse "healthy" (is_ready ml_service).

(** [evaluate_resume_job_fit(resume, job_description)] *)
Definition evaluate_resume_job_fit (ml_service : MLService) (resume : UploadFile)
    (job_description : string) : (http_exn + EvaluationResult) * MLService :=
  if negb (endswith (lower (filename resume)) ".pdf") then (inl InvalidFileError, ml_service)
  else
    match extract_text_from_pdf read_pdf (content resume) with
    | inl e => (inl e, ml_service)
    | inr resume_text => evaluate_fit encode cosine format_2f ml_service resume_text job_description
    end.

(** The registered exception handlers turn an exception into its JSON
    response. *)
Definition to_response (r : http_exn + EvaluationResult) : response :=
  match r with
  | inr result => EvaluationResponse result
  | inl e => JSONResponse (Exceptions.status_code e) (detail e)
  end.

Definition handle (ml_service : MLService) (req : request) : response * MLService :=
  match req with
  | GetHealth => (health_check ml_service, ml_service)
  | PostEvaluate resume job_description =>
      let '(r, ml_service') := evaluate_resume_job_fit ml_service resume job_description in
      (to_response r, ml_service')
  end.

(** A sequence of requests served one after the other. *)
Fixpoint serve (ml_service : MLService) (reqs : list request) : list response * MLService :=
  match reqs with
  | [] => ([], ml_service)
  | req :: reqs' =>
      let '(resp, ml_service') := handle ml_service req in
      let '(resps, ml_service'') := serve ml_service' reqs' in
      (resp :: resps, ml_service'')
  end.

End Endpoints.

End Main.

Module Predicates.
Import PyStr SkillExtractor Similarity.
Local Open Scope list_scope.

Definition str_le (a b : string) : Prop := String.leb a b = true.

Fixpoint nodupb (l : list string) : bool :=
  match l with
  | [] => true
  | x :: l' => negb (mem x l') && nodupb l'
  end.

Definition space (c : ascii) : Prop := is_space c = true.

Fixpoint dropsp (l : list ascii) : list ascii :=
  match l with
  | [] => []
  | c :: l' => if is_space c then dropsp l' else l
  end.

Definition digit (c : ascii) : Prop := is_digit c = true.

(** The conditions under which [_validate_embeddings] raises. *)
Definition invalid (S T : ndarray) : Prop :=
  size S = 0%nat \/ size T = 0%nat \/ ndim S <> 2%nat \/ ndim T <> 2%nat \/
  nth 1 (shape S) 0%nat <> nth 1 (shape T) 0%nat.

Definition is_fin (x : num) : Prop := exists q, x = Fin q.

(** Two results agree: the same error, or values equal as rationals. *)
Definition res_eq (a b : result Q) : Prop :=
  match a, b with
  | inl e1, inl e2 => e1 = e2
  | inr x, inr y => x == y
  | _, _ => False
  end.

(** The call returned a value rather than raising. *)
Definition succeeded {A B} (r : A + B) : bool :=
  match r with inr _ => true | inl _ => false end.

(** The endpoint answered with an evaluation (status 200). *)
Definition is_evaluation (r : Main.response) : bool :=
  match r with Main.EvaluationResponse _ => true | _ => false end.

End Predicates.

(** ** Proofs about sorting and the skill sets *)

Module SkillFacts.
Import PyStr Constants SkillExtractor Predicates.

Lemma leb_false_flip a b : String.leb a b = false -> String.leb b a = true.
Proof.
  intros H. destruct (String.leb_total a b) as [H'|H']; [congruence|exact H'].
Qed.

Lemma insert_perm x l : Permutation (insert x l) (x :: l).
Proof.
  induction l as [|y l IH]; simpl; [reflexivity|].
  destruct (String.leb x y); [reflexivity|].
  rewrite IH. apply perm_swap.
Qed.

Lemma sorted_perm l : Permutation (sorted l) l.
Proof.
  induction l as [|x l IH]; simpl; [reflexivity|].
  rewrite insert_perm. now apply perm_skip.
Qed.

Lemma insert_Sorted x l : Sorted str_le l -> Sorted str_le (insert x l).
Proof.
  induction l as [|y l IH]; intros Hs; simpl.
  - repeat constructor.
  - destruct (String.leb x y) eqn:Hxy.
    + constructor; [exact Hs|constructor; exact Hxy].
    + apply Sorted_inv in Hs as [Hl Hhd].
      constructor; [now apply IH|].
      destruct l as [|z l]; simpl.
      * constructor. now apply leb_false_flip.
      * destruct (String.leb x z); constructor.
        -- now apply leb_false_flip.
        -- now inversion Hhd.
Qed.

Lemma sorted_Sorted l : Sorted str_le (sorted l).
Proof.
  induction l as [|x l IH]; simpl; [constructor|]. now apply insert_Sorted.
Qed.

Lemma mem_In x l : mem x l = true <-> In x l.
Proof.
  unfold mem. rewrite existsb_exists. split.
  - intros [y [Hy Heq]]. apply String.eqb_eq in Heq. now subst.
  - intros H. exists x. split; [exact H|apply String.eqb_refl].
Qed.

Lemma In_inter x a b : In x (inter a b) <-> In x a /\ In x b.
Proof.
  unfold inter. rewrite filter_In, mem_In. tauto.
Qed.

Lemma In_diff x a b : In x (diff a b) <-> In x a /\ ~ In x b.
Proof.
  unfold diff. rewrite filter_In, negb_true_iff.
  split.
  - intros [H1 H2]. split; [exact H1|]. intros H. apply mem_In in H. congruence.
  - intros [H1 H2]. split; [exact H1|].
    destruct (mem x b) eqn:E; [|reflexivity]. apply mem_In in E. contradiction.
Qed.

Lemma nodupb_NoDup l : nodupb l = true -> NoDup l.
Proof.
  induction l as [|x l IH]; simpl; intros H; [constructor|].
  apply andb_prop in H as [H1 H2]. constructor; [|now apply IH].
  intros Hin. apply mem_In in Hin. now rewrite Hin in H1.
Qed.

Lemma RECOGNIZED_SKILLS_NoDup : NoDup RECOGNIZED_SKILLS.
Proof. apply nodupb_NoDup. vm_compute. reflexivity. Qed.

Lemma extract_skills_NoDup t : NoDup (extract_skills t).
Proof.
  unfold extract_skills. destruct (is_blank t); [constructor|].
  apply NoDup_filter, RECOGNIZED_SKILLS_NoDup.
Qed.

Lemma extract_skills_vocab t x : In x (extract_skills t) -> In x RECOGNIZED_SKILLS.
Proof.
  unfold extract_skills. destruct (is_blank t); [intros []|].
  rewrite filter_In. tauto.
Qed.

Lemma sorted_NoDup l : NoDup l -> NoDup (sorted l).
Proof.
  intros H. eapply Permutation_NoDup; [symmetry; apply sorted_perm|exact H].
Qed.

Lemma In_sorted x l : In x (sorted l) <-> In x l.
Proof.
  split; apply Permutation_in; [|symmetry]; apply sorted_perm.
Qed.

End SkillFacts.

(** ** Facts about the string functions *)

Module StrFacts.
Import PyStr SkillExtractor SkillFacts Predicates.
Local Open Scope list_scope.

Lemma chars_inj s t : chars s = chars t -> s = t.
Proof.
  revert t; induction s as [|c s IH]; intros [|d t]; simpl; try discriminate; auto.
  intros H. injection H as -> H. now rewrite (IH t H).
Qed.

Lemma chars_rev_str s acc : chars (rev_str s acc) = rev (chars s) ++ chars acc.
Proof.
  revert acc; induction s as [|c s IH]; intros acc; simpl; [reflexivity|].
  rewrite IH. simpl. now rewrite <- app_assoc.
Qed.

Lemma chars_lstrip s : chars (lstrip s) = dropsp (chars s).
Proof.
  induction s as [|c s IH]; simpl; [reflexivity|].
  destruct (is_space c); [exact IH|reflexivity].
Qed.

Lemma chars_strip s : chars (strip s) = rev (dropsp (rev (dropsp (chars s)))).
Proof.
  unfold strip, rstrip.
  rewrite chars_rev_str, chars_lstrip, chars_rev_str, chars_lstrip. simpl.
  now rewrite !app_nil_r.
Qed.

Lemma dropsp_idem l : dropsp (dropsp l) = dropsp l.
Proof.
  induction l as [|c l IH]; simpl; [reflexivity|].
  destruct (is_space c) eqn:E; [exact IH|simpl; now rewrite E].
Qed.

Lemma dropsp_snoc l c : is_space c = false -> dropsp (l ++ [c]) = dropsp l ++ [c].
Proof.
  intros Hc. induction l as [|d l IH]; simpl; [now rewrite Hc|].
  destruct (is_space d); [exact IH|reflexivity].
Qed.

(** Trimming the end keeps a non-space first character. *)
Lemma dropsp_rstrip_fixed l :
  dropsp l = l -> dropsp (rev (dropsp (rev l))) = rev (dropsp (rev l)).
Proof.
  destruct l as [|c l]; simpl; [reflexivity|].
  destruct (is_space c) eqn:Ec.
  - intros H. exfalso.
    assert (forall k, (List.length (dropsp k) <= List.length k)%nat) as Hle.
    { induction k as [|e k IHk]; simpl; [lia|]. destruct (is_space e); simpl; lia. }
    specialize (Hle l). rewrite H in Hle. simpl in Hle. lia.
  - intros _. rewrite dropsp_snoc by exact Ec. rewrite rev_app_distr. simpl.
    now rewrite Ec.
Qed.

Lemma strip_idem s : strip (strip s) = strip s.
Proof.
  apply chars_inj. rewrite !chars_strip.
  set (u := dropsp (chars s)).
  assert (Hu : dropsp u = u) by apply dropsp_idem.
  rewrite (dropsp_rstrip_fixed u Hu), rev_involutive, dropsp_idem.
  reflexivity.
Qed.

Lemma dropsp_split l : exists p, l = p ++ dropsp l /\ Forall space p.
Proof.
  induction l as [|c l [p [Hp Fp]]]; simpl; [exists []; auto|].
  destruct (is_space c) eqn:E.
  - exists (c :: p). split; [simpl; now f_equal|constructor; assumption].
  - exists []. auto.
Qed.

Lemma dropsp_nil l : dropsp l = [] -> Forall space l.
Proof.
  intros H. destruct (dropsp_split l) as [p [Hp Fp]].
  rewrite H, app_nil_r in Hp. now subst.
Qed.

Lemma blank_all_space s : is_blank s = true -> Forall space (chars s).
Proof.
  unfold is_blank. destruct (strip s) eqn:E; [|discriminate]. intros _.
  apply (f_equal chars) in E. rewrite chars_strip in E. simpl in E.
  apply (f_equal (@rev ascii)) in E. rewrite rev_involutive in E. simpl in E.
  apply dropsp_nil in E. apply Forall_rev in E. rewrite rev_involutive in E.
  destruct (dropsp_split (chars s)) as [p [Hp Fp]].
  rewrite Hp. now apply Forall_app.
Qed.

Lemma strip_not_blank s : is_blank s = false -> strip s <> EmptyString.
Proof. unfold is_blank. destruct (strip s); congruence. Qed.

Lemma prefix_chars p h : String.prefix p h = true -> exists r, chars h = chars p ++ r.
Proof.
  revert h; induction p as [|a p IH]; intros h H; simpl.
  - now exists (chars h).
  - destruct h as [|b h]; simpl in H; [discriminate|].
    destruct (ascii_dec a b) as [->|]; [|discriminate].
    destruct (IH h H) as [r Hr]. exists r. simpl. now rewrite Hr.
Qed.

Lemma contains_chars p h c :
  contains p h = true -> In c (chars p) -> In c (chars h).
Proof.
  induction h as [|b h IH]; intros H Hc; cbn [contains] in H.
  - destruct p as [|a p]; simpl in Hc; [destruct Hc|discriminate].
  - apply orb_true_iff in H as [H|H].
    + apply prefix_chars in H as [r Hr]. rewrite Hr.
      apply in_or_app. now left.
    + right. now apply IH.
Qed.

Lemma chars_sub_nonkept s c : In c (chars (sub_nonkept s)) -> keep_char c = true.
Proof.
  induction s as [|d s IH]; simpl; [intros []|].
  intros [H|H]; [|now apply IH].
  destruct (keep_char d) eqn:E; subst; [exact E|reflexivity].
Qed.

Lemma prefix_sub_nonkept p h :
  (forall c, In c (chars p) -> keep_char c = true) ->
  String.prefix p h = true -> String.prefix p (sub_nonkept h) = true.
Proof.
  revert h; induction p as [|a p IH]; intros h Hk H; simpl; [destruct (sub_nonkept h); reflexivity|].
  destruct h as [|b h]; simpl in H; [discriminate|].
  destruct (ascii_dec a b) as [->|]; [|discriminate].
  simpl. rewrite (Hk b (or_introl eq_refl)).
  destruct (ascii_dec b b) as [_|]; [|congruence].
  apply IH; [intros c Hc; apply Hk; now right|exact H].
Qed.

Lemma contains_sub_nonkept p h :
  (forall c, In c (chars p) -> keep_char c = true) ->
  contains p h = true -> contains p (sub_nonkept h) = true.
Proof.
  intros Hk. induction h as [|b h IH]; intros H; cbn [contains sub_nonkept] in *.
  - exact (prefix_sub_nonkept p EmptyString Hk H).
  - apply orb_true_iff in H as [H|H]; apply orb_true_iff.
    + left. change (String (if keep_char b then b else " "%char) (sub_nonkept h))
        with (sub_nonkept (String b h)).
      now apply prefix_sub_nonkept.
    + right. now apply IH.
Qed.

Lemma chars_lower s c : In c (chars (lower s)) -> exists d, In d (chars s) /\ lower_char d = c.
Proof.
  induction s as [|d s IH]; simpl; [intros []|].
  intros [H|H]; [exists d; auto|].
  destruct (IH H) as [e [He Hl]]. exists e; auto.
Qed.

Lemma extract_skills_kept t x c :
  In x (extract_skills t) -> In c (chars x) -> keep_char c = true.
Proof.
  unfold extract_skills. destruct (is_blank t); [intros []|].
  rewrite filter_In. intros [_ H] Hc.
  apply (chars_sub_nonkept (lower t)). unfold _normalize_text in H.
  exact (contains_chars _ _ _ H Hc).
Qed.

Lemma space_lower_char c : is_space c = true -> lower_char c = c.
Proof.
  destruct c as [[|] [|] [|] [|] [|] [|] [|] [|]]; vm_compute; congruence.
Qed.

Lemma extract_skills_empty : extract_skills "" = [].
Proof. reflexivity. Qed.

(** A skill of the vocabulary made of kept characters is found in every
    text whose lowercase form contains it. *)
Lemma extract_skills_lower_contains t x :
  In x Constants.RECOGNIZED_SKILLS ->
  (forall c, In c (chars x) -> keep_char c = true /\ is_space c = false) ->
  contains x (lower t) = true -> In x (extract_skills t).
Proof.
  intros Hv Hk H. unfold extract_skills.
  destruct (is_blank t) eqn:Hb.
  - exfalso. apply blank_all_space in Hb.
    destruct x as [|c x].
    + clear -Hv. vm_compute in Hv. intuition discriminate.
    + assert (Hc : In c (chars (lower t))) by (apply (contains_chars _ _ _ H); now left).
      apply chars_lower in Hc as [d [Hd Hl]].
      rewrite Forall_forall in Hb. specialize (Hb d Hd).
      rewrite space_lower_char in Hl by exact Hb. subst d.
      destruct (Hk c (or_introl eq_refl)) as [_ Hs]. unfold space in Hb. congruence.
  - apply filter_In. split; [exact Hv|].
    unfold _normalize_text. apply contains_sub_nonkept; [|exact H].
    intros c Hc. now apply Hk.
Qed.

End StrFacts.

(** ** Facts about the years extraction and the scores *)

Module ScorerFacts.
Import PyStr Scorer Predicates.

Lemma span_digits_digits s : Forall digit (chars (fst (span_digits s))).
Proof.
  induction s as [|c s IH]; simpl; [constructor|].
  destruct (is_digit c) eqn:E; simpl; [|constructor].
  destruct (span_digits s) as [d r]. simpl in *. constructor; assumption.
Qed.

Lemma digits_value_nonneg acc s :
  (0 <= acc)%Z -> Forall digit (chars s) -> (0 <= digits_value acc s)%Z.
Proof.
  revert acc; induction s as [|c s IH]; intros acc Hacc Hs; simpl; [exact Hacc|].
  inversion Hs as [|? ? Hc Hs']; subst. apply IH; [|exact Hs'].
  unfold digit, is_digit in Hc. apply andb_true_iff in Hc as [Hc _].
  apply Nat.leb_le in Hc. lia.
Qed.

Lemma decimal_value_nonneg d f :
  Forall digit (chars d) -> Forall digit (chars f) -> 0 <= decimal_value d f.
Proof.
  intros Hd Hf. unfold decimal_value.
  apply (Qplus_le_compat 0 _ 0); [|].
  - change (inject_Z 0 <= inject_Z (digits_value 0 d)).
    rewrite <- Zle_Qle. now apply digits_value_nonneg.
  - apply Qmult_le_0_compat.
    + change (inject_Z 0 <= inject_Z (digits_value 0 f)).
      rewrite <- Zle_Qle. now apply digits_value_nonneg.
    + apply Qinv_le_0_compat. change (inject_Z 0 <= inject_Z (10 ^ Z.of_nat (String.length f))).
      rewrite <- Zle_Qle. apply Z.pow_nonneg. lia.
Qed.

Lemma match_year_nonneg s q r : match_year s = Some (q, r) -> 0 <= q.
Proof.
  unfold match_year.
  pose proof (span_digits_digits s) as Hd.
  destruct (span_digits s) as [d r1]. simpl in Hd.
  destruct d as [|c d']; [discriminate|].
  set (d := String c d') in *.
  assert (Hnum : forall num r2,
    (match r1 with
     | String "."%char r1' =>
         let '(f, r1'') := span_digits r1' in
         match f with
         | EmptyString => (decimal_value d EmptyString, r1)
         | _ => (decimal_value d f, r1'')
         end
     | _ => (decimal_value d EmptyString, r1)
     end) = (num, r2) -> 0 <= num).
  { intros num r2 E.
    assert (H0 : 0 <= decimal_value d EmptyString)
      by (apply decimal_value_nonneg; [exact Hd|constructor]).
    destruct r1 as [|a r1']; [injection E as <- _; exact H0|].
    destruct (ascii_dec a "."%char) as [->|Ha].
    - pose proof (span_digits_digits r1') as Hf.
      destruct (span_digits r1') as [f r1'']. simpl in Hf.
      destruct f; injection E as <- _; [exact H0|].
      now apply decimal_value_nonneg.
    - assert (E' : (decimal_value d EmptyString, String a r1') = (num, r2)).
      { rewrite <- E. destruct a as [[] [] [] [] [] [] [] []];
          try reflexivity; exfalso; apply Ha; reflexivity. }
      injection E' as <- _. exact H0. }
  destruct (match r1 with
     | String "."%char r1' =>
         let '(f, r1'') := span_digits r1' in
         match f with
         | EmptyString => (decimal_value d EmptyString, r1)
         | _ => (decimal_value d f, r1'')
         end
     | _ => (decimal_value d EmptyString, r1)
     end) as [num r2] eqn:E.
  specialize (Hnum num r2 eq_refl).
  destruct (strip_prefix "year" _); [|discriminate].
  intros H. injection H as <- _. exact Hnum.
Qed.

Lemma findall_from_nonneg k s : Forall (fun q => 0 <= q) (findall_from k s).
Proof.
  revert k; induction s as [|c s IH]; intros k; simpl; [constructor|].
  destruct k; [|apply IH].
  destruct (match_year (String c s)) as [[q r]|] eqn:E; [|apply IH].
  constructor; [exact (match_year_nonneg _ _ _ E)|apply IH].
Qed.

Lemma list_max_ge x l : x <= list_max x l.
Proof.
  unfold list_max. revert x; induction l as [|a l IH]; intros x; simpl; [apply Qle_refl|].
  apply Qle_trans with (Qmax x a); [apply Q.le_max_l|apply IH].
Qed.

Lemma extract_years_nonneg text : 0 <= _extract_years_of_experience text.
Proof.
  unfold _extract_years_of_experience, findall_years.
  pose proof (findall_from_nonneg 0 (lower text)) as H.
  destruct (findall_from 0 (lower text)) as [|y ys]; [apply Qle_refl|].
  inversion H; subst. apply Qle_trans with y; [assumption|apply list_max_ge].
Qed.

Lemma experience_score_bounds r j :
  0 <= compute_experience_score r j <= 1.
Proof.
  unfold compute_experience_score.
  destruct (Qle_bool _ 0); [split; discriminate|].
  split; [apply Q.le_max_l|].
  apply Q.max_lub; [discriminate|apply Q.le_min_r].
Qed.

Lemma round_half_even_comp x y : x == y -> round_half_even x = round_half_even y.
Proof.
  intros H. unfold round_half_even.
  rewrite (Qfloor_comp x y H).
  assert (Hr : x - inject_Z (Qfloor y) == y - inject_Z (Qfloor y)) by (rewrite H; reflexivity).
  rewrite (Qleb_comp _ _ (Qeq_refl (1 # 2)) _ _ Hr).
  rewrite (Qleb_comp _ _ Hr _ _ (Qeq_refl (1 # 2))).
  reflexivity.
Qed.

Lemma round_digits_comp k x y : x == y -> round_digits k x = round_digits k y.
Proof.
  intros H. unfold round_digits. f_equal. f_equal. apply round_half_even_comp.
  now rewrite H.
Qed.

End ScorerFacts.

(** ** Claims about skill matching *)

Module SkillClaims.
Import PyStr Constants SkillExtractor SkillFacts StrFacts Scorer Predicates.

(** C1: when the JD yields no vocabulary skill, [match_skills] returns
    [([], [], 1.0)]; otherwise [matched] is the ascending, duplicate-free
    list of the skills of both texts, [missing] the ascending, duplicate-free
    list of the JD skills absent from the resume, together they cover
    exactly the JD skills without overlap, and the ratio is
    [len(matched) / len(jd skills)]. *)
Theorem match_skills_spec (resume_text jd_text : string) :
  let '(matched, missing, overlap_ratio) := match_skills resume_text jd_text in
  let R := extract_skills resume_text in
  let J := extract_skills jd_text in
  match J with
  | [] => matched = [] /\ missing = [] /\ overlap_ratio = 1
  | _ :: _ =>
      Sorted str_le matched /\ NoDup matched /\
      (forall x, In x matched <-> In x R /\ In x J) /\
      Sorted str_le missing /\ NoDup missing /\
      (forall x, In x missing <-> In x J /\ ~ In x R) /\
      (forall x, In x matched \/ In x missing <-> In x J) /\
      (forall x, ~ (In x matched /\ In x missing)) /\
      overlap_ratio = div_len (List.length matched) (List.length J)
  end.
Proof.
  unfold match_skills.
  pose proof (extract_skills_NoDup resume_text) as NR.
  pose proof (extract_skills_NoDup jd_text) as NJ.
  destruct (extract_skills jd_text) as [|j js] eqn:HJ; [repeat split|].
  rewrite <- HJ in *. clear j js HJ.
  set (R := extract_skills resume_text) in *.
  set (J := extract_skills jd_text) in *.
  assert (Hm : forall x, In x (sorted (inter R J)) <-> In x R /\ In x J).
  { intros x. rewrite In_sorted, In_inter. tauto. }
  assert (Hmi : forall x, In x (sorted (diff J R)) <-> In x J /\ ~ In x R).
  { intros x. rewrite In_sorted, In_diff. tauto. }
  split; [apply sorted_Sorted|].
  split; [apply sorted_NoDup; unfold inter; now apply NoDup_filter|].
  split; [exact Hm|].
  split; [apply sorted_Sorted|].
  split; [apply sorted_NoDup; unfold diff; now apply NoDup_filter|].
  split; [exact Hmi|].
  split.
  { intros x. rewrite Hm, Hmi. destruct (in_dec string_dec x R); tauto. }
  split.
  { intros x. rewrite Hm, Hmi. tauto. }
  now rewrite (Permutation_length (sorted_perm (inter R J))).
Qed.

(** C9: normalisation keeps only [a-z], [0-9], [+] and space, so the
    vocabulary entries "scikit-learn", "node.js" and "ci/cd" (which contain
    '-', '.' or '/') are never extracted, whatever the text. *)
Theorem extract_skills_unreachable_entries (text : string) :
  ~ In "scikit-learn" (extract_skills text) /\
  ~ In "node.js" (extract_skills text) /\
  ~ In "ci/cd" (extract_skills text).
Proof.
  repeat split; intros H.
  - assert (K := extract_skills_kept text _ "-"%char H). vm_compute in K.
    discriminate K; tauto.
  - assert (K := extract_skills_kept text _ "."%char H). vm_compute in K.
    discriminate K; tauto.
  - assert (K := extract_skills_kept text _ "/"%char H). vm_compute in K.
    discriminate K; tauto.
Qed.

(** C7 (as stated, refuted): for an empty resume and the JD
    "Kubernetes and Docker", which mentions "kubernetes", the missing skills
    are not ["kubernetes"]: the JD's other skills are reported too. *)
Lemma empty_resume_kubernetes_counterexample :
  let '(matched, missing, _) := match_skills "" "Kubernetes and Docker" in
  matched = [] /\ missing <> ["kubernetes"] /\ In "docker" missing.
Proof.
  vm_compute. split; [reflexivity|]. split; [discriminate|]. tauto.
Qed.

(** C7 (amended): for an empty resume and every JD whose lowercase text
    contains "kubernetes", [matched_skills] is empty, [missing_skills] is the
    ascending list of all skills extracted from the JD, which includes
    "kubernetes", and the experience score is 1.0 when the JD states no
    years and 0.0 otherwise. *)
Theorem empty_resume_kubernetes (jd_text : string) :
  contains "kubernetes" (lower jd_text) = true ->
  let '(matched, missing, _) := match_skills "" jd_text in
  matched = [] /\ missing = sorted (extract_skills jd_text) /\
  In "kubernetes" missing /\
  compute_experience_score "" jd_text ==
    (if Qle_bool (_extract_years_of_experience jd_text) 0 then 1 else 0).
Proof.
  intros Hk.
  assert (Hin : In "kubernetes" (extract_skills jd_text)).
  { apply extract_skills_lower_contains; [apply mem_In; reflexivity| |exact Hk].
    intros c Hc. vm_compute in Hc.
    repeat (destruct Hc as [<-|Hc]; [split; reflexivity|]). destruct Hc. }
  unfold match_skills. rewrite extract_skills_empty.
  destruct (extract_skills jd_text) as [|j js] eqn:HJ; [destruct Hin|].
  rewrite <- HJ in *.
  assert (Hd : diff (extract_skills jd_text) [] = extract_skills jd_text).
  { unfold diff. apply forallb_filter_id, forallb_forall. reflexivity. }
  assert (Hi : forall l, inter [] l = []).
  { unfold inter. induction l as [|a l IH]; [reflexivity|exact IH]. }
  rewrite Hi, Hd. split; [reflexivity|]. split; [reflexivity|].
  split; [now apply In_sorted|].
  unfold compute_experience_score.
  destruct (Qle_bool (_extract_years_of_experience jd_text) 0); [reflexivity|].
  reflexivity.
Qed.

Lemma empty_resume_kubernetes_witness :
  contains "kubernetes" (lower "Kubernetes and Docker") = true /\
  let '(matched, missing, _) := match_skills "" "Kubernetes and Docker" in
  matched = [] /\ missing = sorted (extract_skills "Kubernetes and Docker") /\
  In "kubernetes" missing /\
  compute_experience_score "" "Kubernetes and Docker" ==
    (if Qle_bool (_extract_years_of_experience "Kubernetes and Docker") 0 then 1 else 0).
Proof.
  split; [reflexivity|]. apply empty_resume_kubernetes. reflexivity.
Defined.

End SkillClaims.

(** ** Claims about the experience and final scores *)

Module ScorerClaims.
Import PyStr Constants Scorer ScorerFacts YearsReading Predicates.

(** C3 (as stated, refuted): the JD "Requires 5 + years" has no number
    immediately followed by an optional '+', optional whitespace and "year",
    so the claim's reading finds 0 years and promises a score of 1.0; the
    code's pattern allows whitespace before the '+', finds 5 years, and an
    empty resume scores 0. *)
Lemma experience_score_counterexample :
  claim_extract_years "Requires 5 + years" == 0 /\
  _extract_years_of_experience "Requires 5 + years" == 5 /\
  compute_experience_score "" "Requires 5 + years" == 0.
Proof. vm_compute. repeat split; reflexivity. Qed.

(** C3 (amended): the score is 1.0 when the JD's years are <= 0 and
    otherwise [max(0, min(candidate/required, 1.0))], where the years of a
    text are the maximum of the numbers found by scanning its lowercase form
    for [(\d+(?:\.\d+)?)\s*\+?\s*years?] (whitespace allowed before and
    after the '+'), or 0.0 if none; the years are >= 0, those of "" are 0,
    and the score lies in [0, 1]. *)
Theorem experience_score_spec (resume_text jd_text : string) :
  compute_experience_score resume_text jd_text =
    (let candidate := _extract_years_of_experience resume_text in
     let required := _extract_years_of_experience jd_text in
     if Qle_bool required 0 then 1 else Qmax 0 (Qmin (candidate / required) 1)) /\
  (forall text, _extract_years_of_experience text =
     match findall_years (lower text) with [] => 0 | y :: ys => list_max y ys end) /\
  (forall text, 0 <= _extract_years_of_experience text) /\
  _extract_years_of_experience "" = 0 /\
  0 <= compute_experience_score resume_text jd_text <= 1.
Proof.
  split; [reflexivity|].
  split; [reflexivity|].
  split; [exact extract_years_nonneg|].
  split; [reflexivity|].
  apply experience_score_bounds.
Qed.

(** C8: for a JD with positive required years the score is monotonically
    non-decreasing in the candidate's years, and equals 1.0 once the
    candidate's years reach the required years. *)
Theorem experience_score_monotone (resume1 resume2 jd_text : string) :
  0 < _extract_years_of_experience jd_text ->
  _extract_years_of_experience resume1 <= _extract_years_of_experience resume2 ->
  compute_experience_score resume1 jd_text <= compute_experience_score resume2 jd_text /\
  (_extract_years_of_experience jd_text <= _extract_years_of_experience resume1 ->
   compute_experience_score resume1 jd_text == 1).
Proof.
  intros Hq Hc. unfold compute_experience_score.
  set (q := _extract_years_of_experience jd_text) in *.
  set (c1 := _extract_years_of_experience resume1) in *.
  set (c2 := _extract_years_of_experience resume2) in *.
  assert (Hb : Qle_bool q 0 = false).
  { destruct (Qle_bool q 0) eqn:E; [|reflexivity].
    apply Qle_bool_iff in E. exfalso. apply (Qlt_not_le _ _ Hq E). }
  rewrite Hb. split.
  - apply Q.max_le_compat_l, Q.min_le_compat_r.
    apply Qmult_le_compat_r; [exact Hc|].
    apply Qinv_le_0_compat, Qlt_le_weak, Hq.
  - intros Hge.
    assert (H1 : 1 <= c1 / q).
    { apply Qle_shift_div_l; [exact Hq|]. now rewrite Qmult_1_l. }
    rewrite (Q.min_r _ _ H1). apply Q.max_r. discriminate.
Qed.

Lemma experience_score_monotone_witness :
  (0 < _extract_years_of_experience "5+ years experience" /\
   _extract_years_of_experience "3 years" <= _extract_years_of_experience "7 years") /\
  (compute_experience_score "3 years" "5+ years experience" <=
     compute_experience_score "7 years" "5+ years experience" /\
   (_extract_years_of_experience "5+ years experience" <= _extract_years_of_experience "3 years" ->
    compute_experience_score "3 years" "5+ years experience" == 1)).
Proof.
  assert (H1 : 0 < _extract_years_of_experience "5+ years experience") by reflexivity.
  assert (H2 : _extract_years_of_experience "3 years" <= _extract_years_of_experience "7 years")
    by discriminate.
  split; [split; assumption|].
  exact (experience_score_monotone "3 years" "7 years" "5+ years experience" H1 H2).
Defined.

(** C4: the final score is [100 * (0.6 s + 0.3 k + 0.1 e)] rounded to two
    decimal places; in particular 100 for (1, 1, 1) and 0 for (0, 0, 0). *)
Theorem final_score_spec (semantic skills experience : Q) :
  compute_final_score semantic skills experience =
    round_digits 2 (100 * ((6 # 10) * semantic + (3 # 10) * skills + (1 # 10) * experience)) /\
  compute_final_score 1 1 1 == 100 /\
  compute_final_score 0 0 0 == 0.
Proof.
  split; [|split; reflexivity].
  unfold compute_final_score. apply round_digits_comp.
  unfold SEMANTIC_SIMILARITY_WEIGHT, SKILL_MATCH_WEIGHT, EXPERIENCE_MATCH_WEIGHT.
  ring.
Qed.

End ScorerClaims.

(** ** Claims about the sentence splitter *)

Module SplitterClaims.
Import PyStr StrFacts Pipeline Predicates.

(** C6 (as stated, refuted): for the text " ." every fragment is empty
    after trimming, and the splitter returns the original text " ." itself,
    which is neither trimmed nor the stripped text ".". *)
Lemma tokenize_fallback_counterexample :
  _tokenize_into_sentences " ." = [" ."] /\ strip " ." = "." /\ strip " ." <> " .".
Proof. vm_compute. repeat split; discriminate. Qed.

(** C6 (amended): empty or whitespace-only text gives [[""]]; otherwise the
    newlines become spaces, the text is split on '.', the fragments are
    trimmed and the empty ones dropped; these fragments are returned when
    there is at least one, each non-empty and trimmed, and otherwise the
    batch is [[text]], the original untrimmed text.  The batch is never
    empty. *)
Theorem tokenize_spec (text : string) :
  let pieces := split_on "."%char (replace_char "010"%char " "%char text) in
  let fragments := flat_map (fun s => if is_blank s then [] else [strip s]) pieces in
  _tokenize_into_sentences text =
    (if is_blank text then [""]
     else match fragments with [] => [text] | _ => fragments end) /\
  (forall e, In e fragments -> strip e = e /\ e <> EmptyString) /\
  _tokenize_into_sentences text <> [].
Proof.
  intros pieces fragments.
  assert (Hf : forall e, In e fragments -> strip e = e /\ e <> EmptyString).
  { intros e He. unfold fragments in He. apply in_flat_map in He as [s [_ Hs]].
    destruct (is_blank s) eqn:Hb; [destruct Hs|].
    destruct Hs as [<-|[]]. split; [apply strip_idem|now apply strip_not_blank]. }
  split; [reflexivity|]. split; [exact Hf|].
  unfold _tokenize_into_sentences. fold pieces. fold fragments.
  destruct (is_blank text); [discriminate|].
  destruct fragments; discriminate.
Qed.

End SplitterClaims.

(** ** Facts about the coverage score *)

Module SimFacts.
Import Similarity Predicates.
Local Open Scope list_scope.

Lemma validate_spec S T :
  (exists msg, _validate_embeddings S T = inl (InvalidInput msg)) <-> invalid S T.
Proof.
  unfold _validate_embeddings, invalid.
  destruct (Nat.eqb_spec (size S) 0); [split; [tauto|intros; eexists; reflexivity]|].
  destruct (Nat.eqb_spec (size T) 0); [split; [tauto|intros; eexists; reflexivity]|].
  destruct (Nat.eqb_spec (ndim S) 2); simpl; [|split; [tauto|intros; eexists; reflexivity]].
  destruct (Nat.eqb_spec (ndim T) 2); simpl; [|split; [tauto|intros; eexists; reflexivity]].
  destruct (Nat.eqb_spec (nth 1 (shape S) 0%nat) (nth 1 (shape T) 0%nat)); simpl.
  - split; [intros [msg H]; discriminate|tauto].
  - split; [tauto|intros; eexists; reflexivity].
Qed.

Lemma validate_ok S T : ~ invalid S T -> _validate_embeddings S T = inr tt.
Proof.
  intros H. destruct (_validate_embeddings S T) as [e|[]] eqn:E; [|reflexivity].
  exfalso. apply H, validate_spec.
  destruct e as [msg|msg]; [now exists msg|].
  revert E. unfold _validate_embeddings.
  repeat match goal with |- context [if ?b then _ else _] => destruct b end; discriminate.
Qed.

Lemma validate_shape S T S' T' :
  shape S = shape S' -> shape T = shape T' ->
  _validate_embeddings S T = _validate_embeddings S' T'.
Proof.
  intros HS HT. unfold _validate_embeddings, size, ndim. now rewrite HS, HT.
Qed.

Lemma all_finite_Forall l : Forall is_fin l -> exists qs, all_finite l = Some qs.
Proof.
  induction 1 as [|x l [q ->] _ [qs Hqs]]; [now exists []|].
  exists (q :: qs). simpl. now rewrite Hqs.
Qed.

Lemma is_fin_dec x : {is_fin x} + {~ is_fin x}.
Proof.
  destruct x as [q| |]; [left; now exists q|right; intros [? ?]; discriminate|
    right; intros [? ?]; discriminate].
Defined.

Lemma all_finite_not l : ~ Forall is_fin l -> all_finite l = None.
Proof.
  induction l as [|x l IH]; simpl; intros H; [exfalso; apply H; constructor|].
  destruct x as [q| |]; try reflexivity.
  destruct (all_finite l) as [qs|] eqn:E; [|reflexivity].
  exfalso. apply H. constructor; [now exists q|].
  destruct (Forall_dec is_fin is_fin_dec l) as [F|F]; [exact F|].
  specialize (IH F). congruence.
Qed.

Lemma Forall_firstn {A} (P : A -> Prop) n l : Forall P l -> Forall P (firstn n l).
Proof.
  intros H. rewrite <- (firstn_skipn n l) in H. now apply Forall_app in H as [H _].
Qed.

Lemma Forall_skipn {A} (P : A -> Prop) n l : Forall P l -> Forall P (skipn n l).
Proof.
  intros H. rewrite <- (firstn_skipn n l) in H. now apply Forall_app in H as [_ H].
Qed.

Lemma rows_finite_ok n m l :
  Forall is_fin l -> exists qs, rows_finite (rows_of n m l) = Some qs.
Proof.
  revert l; induction n as [|n IH]; intros l H; simpl; [now exists []|].
  destruct (all_finite_Forall _ (Forall_firstn _ m _ H)) as [q Hq].
  destruct (IH _ (Forall_skipn _ m _ H)) as [qs Hqs].
  exists (q :: qs). now rewrite Hq, Hqs.
Qed.

(** Row extraction of a well-formed 2-D array. *)
Lemma rows_of_lengths n m l :
  List.length l = (n * m)%nat ->
  List.length (rows_of n m l) = n /\ Forall (fun r => List.length r = m) (rows_of n m l).
Proof.
  revert l; induction n as [|n IH]; intros l Hl; simpl; [split; [reflexivity|constructor]|].
  destruct (IH (skipn m l)) as [H1 H2]; [rewrite length_skipn; lia|].
  split; [now rewrite H1|]. constructor; [rewrite length_firstn; lia|exact H2].
Qed.

Lemma rows_of_concat n m rs :
  List.length rs = n -> Forall (fun r => List.length r = m) rs ->
  rows_of n m (List.concat rs) = rs.
Proof.
  revert n; induction rs as [|r rs IH]; intros n Hn Hr; simpl in *; subst; [reflexivity|].
  inversion Hr as [|? ? Hlen Hrs]; subst. cbn [rows_of].
  rewrite firstn_app, firstn_all, Nat.sub_diag, firstn_O, app_nil_r.
  rewrite skipn_app, skipn_all, Nat.sub_diag, skipn_O. simpl.
  now rewrite IH.
Qed.

Lemma rows_finite_perm rs rs' :
  Permutation rs rs' ->
  match rows_finite rs, rows_finite rs' with
  | Some a, Some b => Permutation a b
  | None, None => True
  | _, _ => False
  end.
Proof.
  induction 1 as [|r rs rs' _ IH|r1 r2 rs|rs rs' rs'' _ IH1 _ IH2]; simpl.
  - constructor.
  - destruct (all_finite r), (rows_finite rs), (rows_finite rs'); try tauto.
    now apply perm_skip.
  - destruct (all_finite r1), (all_finite r2), (rows_finite rs); try tauto.
    apply perm_swap.
  - destruct (rows_finite rs), (rows_finite rs'), (rows_finite rs''); try tauto.
    now apply perm_trans with l0.
Qed.

(** [row_max] is the greatest element of a non-empty row. *)
Lemma fold_max_in x l : In (fold_left Qmax l x) (x :: l).
Proof.
  revert x; induction l as [|a l IH]; intros x; simpl; [now left|].
  destruct (IH (Qmax x a)) as [H|H].
  - rewrite <- H.
    assert (C : Qmax x a = x \/ Qmax x a = a).
    { unfold Qmax, GenericMinMax.gmax. destruct (Qcompare x a); auto. }
    destruct C as [C|C]; rewrite C; simpl; auto.
  - auto.
Qed.

Lemma fold_max_ge x l y : In y (x :: l) -> y <= fold_left Qmax l x.
Proof.
  revert x y; induction l as [|a l IH]; intros x y Hy; simpl in *.
  - destruct Hy as [<-|[]]. apply Qle_refl.
  - destruct Hy as [Hy|[Hy|Hy]].
    + rewrite <- Hy.
      apply Qle_trans with (Qmax x a); [apply Q.le_max_l|apply IH; now left].
    + rewrite <- Hy.
      apply Qle_trans with (Qmax x a); [apply Q.le_max_r|apply IH; now left].
    + apply IH. now right.
Qed.

Lemma row_max_perm l l' : Permutation l l' -> row_max l == row_max l'.
Proof.
  intros P. destruct l as [|x l], l' as [|x' l'].
  - reflexivity.
  - apply Permutation_nil in P. discriminate.
  - symmetry in P. apply Permutation_nil in P. discriminate.
  - simpl. apply Qle_antisym.
    + apply fold_max_ge. apply (Permutation_in _ P), fold_max_in.
    + apply fold_max_ge. apply (Permutation_in _ (Permutation_sym P)), fold_max_in.
Qed.

Lemma fold_plus_ext (l l' : list Q) a b :
  Forall2 Qeq l l' -> a == b -> fold_left Qplus l a == fold_left Qplus l' b.
Proof.
  intros H. revert a b; induction H as [|x y l l' Hxy _ IH]; intros a b Hab; simpl;
    [exact Hab|].
  apply IH. now rewrite Hab, Hxy.
Qed.

Lemma mean_ext (l l' : list Q) : Forall2 Qeq l l' -> mean l == mean l'.
Proof.
  intros H. unfold mean, sum. rewrite (Forall2_length H).
  now rewrite (fold_plus_ext l l' 0 0 H (Qeq_refl 0)).
Qed.

Lemma clip_bounds x : 0 <= clip x 0 1 <= 1.
Proof.
  unfold clip. split.
  - apply Q.min_glb; [apply Q.le_max_r|discriminate].
  - apply Q.le_min_r.
Qed.

Lemma clip_ext x y : x == y -> clip x 0 1 == clip y 0 1.
Proof. intros H. unfold clip. now rewrite H. Qed.

Lemma validate_raises_invalid S T e :
  _validate_embeddings S T = inl e -> exists msg, e = InvalidInput msg.
Proof.
  unfold _validate_embeddings.
  repeat match goal with |- context [if ?b then _ else _] => destruct b end;
    intros H; first [discriminate | injection H as <-; eexists; reflexivity].
Qed.

Lemma cosine_similarity_not_invalid cosine S T msg :
  cosine_similarity cosine S T <> inl (InvalidInput msg).
Proof.
  unfold cosine_similarity.
  destruct (rows_finite (rows S)), (rows_finite (rows T)); discriminate.
Qed.

Lemma rows_finite_Forall rs qs : rows_finite rs = Some qs -> Forall is_fin (List.concat rs).
Proof.
  revert qs; induction rs as [|r rs IH]; intros qs H; simpl; [constructor|].
  simpl in H. destruct (all_finite r) as [q|] eqn:Er; [|discriminate].
  destruct (rows_finite rs) as [qs'|]; [|discriminate].
  apply Forall_app. split; [|now apply (IH qs')].
  clear -Er. revert q Er; induction r as [|x r IHr]; intros q Er; [constructor|].
  simpl in Er. destruct x as [x| |]; try discriminate.
  destruct (all_finite r) as [q'|]; [|discriminate].
  constructor; [now exists x|now apply (IHr q')].
Qed.

Lemma concat_rows_of n m l :
  List.length l = (n * m)%nat -> List.concat (rows_of n m l) = l.
Proof.
  revert l; induction n as [|n IH]; intros l Hl; simpl.
  - simpl in Hl. now destruct l.
  - rewrite IH by (rewrite length_skipn; lia). apply firstn_skipn.
Qed.

Lemma shape_2d (a : ndarray) : ndim a = 2%nat ->
  shape a = [nth 0 (shape a) 0%nat; nth 1 (shape a) 0%nat].
Proof.
  unfold ndim. destruct (shape a) as [|n [|m [|k r]]]; simpl; try discriminate.
  reflexivity.
Qed.

Lemma wf_rows (a : ndarray) : ndim a = 2%nat -> wf a ->
  List.concat (rows a) = flat a /\
  List.length (rows a) = nth 0 (shape a) 0%nat /\
  Forall (fun r => List.length r = nth 1 (shape a) 0%nat) (rows a).
Proof.
  intros H2 Hwf. unfold wf, size in Hwf. rewrite (shape_2d a H2) in Hwf. simpl in Hwf.
  rewrite Nat.mul_1_r in Hwf. unfold rows.
  split; [now apply concat_rows_of|]. now apply rows_of_lengths.
Qed.

End SimFacts.

(** ** Claims about the coverage score and the orchestrator *)

Module CoverageFacts.
Import PyStr StrFacts Similarity SimFacts Pipeline Predicates.
Local Open Scope list_scope.

Lemma evaluate_propagates encode cosine format_2f resume_text jd_text e :
  average_max_cosine_similarity cosine
    (encode (_tokenize_into_sentences jd_text))
    (encode (_tokenize_into_sentences resume_text)) = inl e ->
  evaluate encode cosine format_2f resume_text jd_text = inl e.
Proof.
  intros H. unfold evaluate, bind at 1. cbv zeta. now rewrite H.
Qed.

Lemma amc_invalid_iff cosine S T :
  (exists msg, average_max_cosine_similarity cosine S T = inl (InvalidInput msg))
    <-> invalid S T.
Proof.
  rewrite <- validate_spec. unfold average_max_cosine_similarity, bind at 1.
  destruct (_validate_embeddings S T) as [e|[]] eqn:E.
  - split; intros [msg H].
    + destruct (validate_raises_invalid S T e E) as [m ->]. now exists m.
    + injection H as ->. now exists msg.
  - split; intros [msg H]; [|discriminate].
    exfalso. unfold bind in H.
    destruct (cosine_similarity cosine S T) eqn:C; [|discriminate].
    injection H as ->. exact (cosine_similarity_not_invalid _ _ _ _ C).
Qed.

Lemma amc_bounds cosine S T v :
  average_max_cosine_similarity cosine S T = inr v -> 0 <= v <= 1.
Proof.
  unfold average_max_cosine_similarity, bind.
  destruct (_validate_embeddings S T); [discriminate|].
  destruct (cosine_similarity cosine S T); [discriminate|].
  unfold ret. intros H. injection H as <-. apply clip_bounds.
Qed.

Lemma tokenize_nonempty text : _tokenize_into_sentences text <> [].
Proof.
  unfold _tokenize_into_sentences.
  destruct (is_blank text); [discriminate|].
  destruct (flat_map _ _); discriminate.
Qed.

Lemma Forall2_map_eq {A} (f g : A -> Q) l :
  (forall x, f x == g x) -> Forall2 Qeq (map f l) (map g l).
Proof. intros H. induction l; simpl; constructor; auto. Qed.

End CoverageFacts.

Module CoverageClaims.
Import PyStr Similarity SimFacts Pipeline CoverageFacts Predicates.
Local Open Scope list_scope.

(** C2 (as stated, refuted): a 1x1 source holding NaN and a 1x1 target
    pass every shape check, yet the call raises (scikit-learn's
    [ValueError] for non-finite input) instead of returning a value. *)
Lemma coverage_nan_counterexample :
  let S := mk_ndarray [1%nat; 1%nat] [NaN] in
  let T := mk_ndarray [1%nat; 1%nat] [Fin 1] in
  ~ invalid S T /\
  average_max_cosine_similarity (fun x y => fold_left Qplus (map (fun '(a, b) => a * b) (combine x y)) 0) S T
    = inl (NotFinite "Input contains NaN or infinity.").
Proof.
  split; [|reflexivity].
  unfold invalid, size, ndim. simpl. intros H.
  repeat destruct H as [H|H]; try discriminate; apply H; reflexivity.
Qed.

(** C2 (amended): [InvalidInput] is raised exactly when a matrix is empty,
    not 2-D, or the vector dimensions differ; for all other inputs whose
    entries are finite the result is the mean over source rows of each row's
    maximum kernel value against the target rows, clamped into [0, 1];
    well-formed inputs passing the checks but holding a NaN or infinite
    entry raise scikit-learn's [ValueError] instead; and [evaluate]
    propagates any error of the coverage step unchanged. *)
Theorem coverage_errors (cosine : list Q -> list Q -> Q) (S T : ndarray) :
  ((exists msg, average_max_cosine_similarity cosine S T = inl (InvalidInput msg))
     <-> invalid S T) /\
  (~ invalid S T -> Forall is_fin (flat S) -> Forall is_fin (flat T) ->
   exists xs ys,
     rows_finite (rows S) = Some xs /\ rows_finite (rows T) = Some ys /\
     average_max_cosine_similarity cosine S T =
       inr (clip (mean (map (fun x => row_max (map (cosine x) ys)) xs)) 0 1)) /\
  (~ invalid S T -> wf S -> wf T ->
   ~ (Forall is_fin (flat S) /\ Forall is_fin (flat T)) ->
   exists msg, average_max_cosine_similarity cosine S T = inl (NotFinite msg)) /\
  (forall encode format_2f resume_text jd_text e,
     average_max_cosine_similarity cosine
       (encode (_tokenize_into_sentences jd_text))
       (encode (_tokenize_into_sentences resume_text)) = inl e ->
     evaluate encode cosine format_2f resume_text jd_text = inl e).
Proof.
  split; [|split; [|split]].
  - apply amc_invalid_iff.
  - intros Hv HS HT.
    unfold wf in *.
    destruct (rows_finite_ok (nth 0 (shape S) 0%nat) (nth 1 (shape S) 0%nat) (flat S) HS)
      as [xs Hxs].
    destruct (rows_finite_ok (nth 0 (shape T) 0%nat) (nth 1 (shape T) 0%nat) (flat T) HT)
      as [ys Hys].
    exists xs, ys. split; [exact Hxs|]. split; [exact Hys|].
    unfold average_max_cosine_similarity. rewrite (validate_ok S T Hv). simpl.
    unfold cosine_similarity, rows. rewrite Hxs, Hys. unfold bind, ret.
    now rewrite map_map.
  - intros Hv HwS HwT Hnf.
    assert (H2 : ndim S = 2%nat /\ ndim T = 2%nat) by (unfold invalid in Hv; lia).
    destruct H2 as [H2S H2T].
    destruct (wf_rows S H2S HwS) as [CS _]. destruct (wf_rows T H2T HwT) as [CT _].
    exists "Input contains NaN or infinity.".
    unfold average_max_cosine_similarity. rewrite (validate_ok S T Hv). simpl.
    unfold cosine_similarity.
    destruct (rows_finite (rows S)) as [xs|] eqn:ES; [|reflexivity].
    destruct (rows_finite (rows T)) as [ys|] eqn:ET; [|reflexivity].
    exfalso. apply Hnf. rewrite <- CS, <- CT.
    split; eapply rows_finite_Forall; eassumption.
  - intros encode format_2f r j e. apply evaluate_propagates.
Qed.

(** C5: for valid inputs, permuting the rows of the (well-formed) target
    matrix leaves the coverage unchanged, and every returned value lies in
    [0, 1]. *)
Theorem coverage_perm_invariant (cosine : list Q -> list Q -> Q) (S T : ndarray)
    (permuted_rows : list (list num)) :
  ~ invalid S T -> wf T -> Permutation (rows T) permuted_rows ->
  res_eq (average_max_cosine_similarity cosine S
            (mk_ndarray (shape T) (List.concat permuted_rows)))
         (average_max_cosine_similarity cosine S T) /\
  (forall v, average_max_cosine_similarity cosine S T = inr v -> 0 <= v <= 1) /\
  (forall v, average_max_cosine_similarity cosine S
               (mk_ndarray (shape T) (List.concat permuted_rows)) = inr v -> 0 <= v <= 1).
Proof.
  intros Hv Hw P.
  split; [|split; intros v; apply amc_bounds].
  set (T' := mk_ndarray (shape T) (List.concat permuted_rows)).
  assert (H2T : ndim T = 2%nat) by (unfold invalid in Hv; lia).
  destruct (wf_rows T H2T Hw) as [_ [Hn Hm]].
  assert (HT' : rows T' = permuted_rows).
  { unfold rows. simpl. apply rows_of_concat.
    - rewrite <- (Permutation_length P). exact Hn.
    - rewrite Forall_forall in *. intros r Hr. apply Hm.
      apply Permutation_in with permuted_rows; [symmetry; exact P|exact Hr]. }
  assert (Hval : _validate_embeddings S T' = _validate_embeddings S T)
    by (apply validate_shape; reflexivity).
  unfold average_max_cosine_similarity. rewrite Hval, (validate_ok S T Hv).
  unfold bind at 1 3. unfold cosine_similarity. rewrite HT'.
  pose proof (rows_finite_perm _ _ P) as RP.
  destruct (rows_finite (rows S)) as [xs|]; [|reflexivity].
  destruct (rows_finite (rows T)) as [ys|], (rows_finite permuted_rows) as [ys'|];
    try contradiction; [|reflexivity].
  unfold bind, ret, res_eq. apply clip_ext, mean_ext. rewrite !map_map.
  apply Forall2_map_eq. intros x. apply row_max_perm.
  apply Permutation_map. symmetry. exact RP.
Qed.

Lemma coverage_perm_invariant_witness :
  let cosine := fun x y : list Q => fold_left Qplus (map (fun '(a, b) => a * b) (combine x y)) 0 in
  let S := mk_ndarray [1%nat; 2%nat] [Fin 1; Fin 0] in
  let T := mk_ndarray [2%nat; 2%nat] [Fin 0; Fin 1; Fin 1; Fin 0] in
  let permuted_rows := [[Fin 1; Fin 0]; [Fin 0; Fin 1]] in
  (~ invalid S T /\ wf T /\ Permutation (rows T) permuted_rows) /\
  (res_eq (average_max_cosine_similarity cosine S
            (mk_ndarray (shape T) (List.concat permuted_rows)))
         (average_max_cosine_similarity cosine S T) /\
  (forall v, average_max_cosine_similarity cosine S T = inr v -> 0 <= v <= 1) /\
  (forall v, average_max_cosine_similarity cosine S
               (mk_ndarray (shape T) (List.concat permuted_rows)) = inr v -> 0 <= v <= 1)).
Proof.
  intros cosine S T permuted_rows.
  assert (H1 : ~ invalid S T).
  { unfold invalid, size, ndim. simpl. intros H.
    repeat destruct H as [H|H]; try discriminate; apply H; reflexivity. }
  assert (H2 : wf T) by reflexivity.
  assert (H3 : Permutation (rows T) permuted_rows) by (simpl; apply perm_swap).
  split; [split; [exact H1|split; [exact H2|exact H3]]|].
  exact (coverage_perm_invariant cosine S T permuted_rows H1 H2 H3).
Defined.

Section EmbedderContract.

(** The Embedder contract: a batch of [n >= 1] strings is encoded as an
    [n x dim] matrix, for one fixed positive [dim]. *)
Variable encode : list string -> ndarray.
Variable cosine : list Q -> list Q -> Q.
Variable format_2f : Q -> string.
Variable dim : nat.
Hypothesis dim_pos : (0 < dim)%nat.
Hypothesis encode_shape :
  forall texts, texts <> [] -> shape (encode texts) = [List.length texts; dim].

(** C10: the splitter always returns at least one sentence, so under the
    Embedder contract [evaluate] never raises [InvalidInput]. *)
Theorem evaluate_never_invalid_input (resume_text jd_text : string) :
  _tokenize_into_sentences resume_text <> [] /\
  _tokenize_into_sentences jd_text <> [] /\
  forall msg, evaluate encode cosine format_2f resume_text jd_text <> inl (InvalidInput msg).
Proof.
  pose proof (tokenize_nonempty resume_text) as Hr.
  pose proof (tokenize_nonempty jd_text) as Hj.
  split; [exact Hr|]. split; [exact Hj|]. intros msg.
  set (RE := encode (_tokenize_into_sentences resume_text)).
  set (JE := encode (_tokenize_into_sentences jd_text)).
  assert (Hlen : forall l : list string, l <> [] -> (0 < List.length l)%nat).
  { intros [|x l] H; [congruence|simpl; lia]. }
  assert (Hv : ~ invalid JE RE).
  { unfold invalid, size, ndim, JE, RE.
    rewrite (encode_shape _ Hr), (encode_shape _ Hj). simpl.
    pose proof (Hlen _ Hr). pose proof (Hlen _ Hj).
    intros Hc. repeat destruct Hc as [Hc|Hc]; try lia. }
  destruct (average_max_cosine_similarity cosine JE RE) as [e|v] eqn:A.
  - rewrite (evaluate_propagates encode cosine format_2f resume_text jd_text e A).
    intros He. injection He as ->. apply Hv, (amc_invalid_iff cosine). now exists msg.
  - unfold evaluate, bind at 1. cbv zeta. fold RE JE. rewrite A.
    destruct (SkillExtractor.match_skills resume_text jd_text) as [[? ?] ?].
    discriminate.
Qed.

End EmbedderContract.

Lemma evaluate_never_invalid_input_witness :
  let encode := fun texts : list string =>
    mk_ndarray [List.length texts; 1%nat] (repeat (Fin 1) (List.length texts)) in
  let cosine := fun _ _ : list Q => 1 in
  let format_2f := fun _ : Q => "1.00" in
  ((0 < 1)%nat /\
   (forall texts, texts <> [] -> shape (encode texts) = [List.length texts; 1%nat])) /\
  (_tokenize_into_sentences "" <> [] /\
   _tokenize_into_sentences "Kubernetes." <> [] /\
   forall msg, evaluate encode cosine format_2f "" "Kubernetes." <> inl (InvalidInput msg)).
Proof.
  intros encode cosine format_2f.
  assert (H1 : (0 < 1)%nat) by lia.
  assert (H2 : forall texts, texts <> [] -> shape (encode texts) = [List.length texts; 1%nat])
    by (intros; reflexivity).
  split; [split; [exact H1|exact H2]|].
  exact (evaluate_never_invalid_input encode cosine format_2f 1 H1 H2 "" "Kubernetes.").
Defined.

End CoverageClaims.

(** ** Facts about [compute_weighted_skill_score] *)

Module WeightedFacts.
Import PyStr Constants SkillExtractor SkillFacts Scorer.
Local Open Scope list_scope.

Lemma filter_length_mono {A} (f g : A -> bool) l :
  (forall x, In x l -> f x = true -> g x = true) ->
  (List.length (filter f l) <= List.length (filter g l))%nat.
Proof.
  induction l as [|a l IH]; intros H; simpl; [lia|].
  assert (IH' := IH (fun x Hx => H x (or_intror Hx))).
  destruct (f a) eqn:Fa; [rewrite (H a (or_introl eq_refl) Fa); simpl; lia|].
  destruct (g a); simpl; lia.
Qed.

Lemma filter_length_eq {A} (f g : A -> bool) l :
  (forall x, In x l -> f x = true -> g x = true) ->
  (List.length (filter f l) = List.length (filter g l) <->
   forall x, In x l -> g x = true -> f x = true).
Proof.
  induction l as [|a l IH]; intros H; simpl; [split; [intros _ x []|reflexivity]|].
  assert (H' : forall x, In x l -> f x = true -> g x = true)
    by (intros x Hx Fx; apply H; [now right|exact Fx]).
  pose proof (filter_length_mono f g l H') as Hle.
  destruct (f a) eqn:Fa.
  - rewrite (H a (or_introl eq_refl) Fa). simpl. split.
    + intros Heq. injection Heq as Heq. intros x [<-|Hx] Gx; [exact Fa|].
      exact (proj1 (IH H') Heq x Hx Gx).
    + intros Hall. f_equal. apply (proj2 (IH H')). intros x Hx. apply Hall. now right.
  - destruct (g a) eqn:Ga; simpl.
    + split; [lia|]. intros Hall. specialize (Hall a (or_introl eq_refl) Ga). congruence.
    + rewrite (IH H'). split; intros Hall x.
      * intros [<-|Hx] Gx; [congruence|]. now apply Hall.
      * intros Hx. apply Hall. now right.
Qed.

Lemma div_len_bounds a b :
  (a <= b)%nat -> (0 < b)%nat -> 0 <= div_len a b <= 1.
Proof.
  intros Hab Hb. unfold div_len.
  assert (Hb' : 0 < inject_Z (Z.of_nat b))
    by (change 0 with (inject_Z 0); rewrite <- Zlt_Qlt; lia).
  split.
  - apply Qle_shift_div_l; [exact Hb'|]. rewrite Qmult_0_l.
    change 0 with (inject_Z 0). rewrite <- Zle_Qle. lia.
  - apply Qle_shift_div_r; [exact Hb'|]. rewrite Qmult_1_l. rewrite <- Zle_Qle. lia.
Qed.

Lemma div_len_one a b :
  (0 < b)%nat -> (div_len a b == 1 <-> a = b).
Proof.
  intros Hb. unfold div_len.
  assert (Hb' : ~ inject_Z (Z.of_nat b) == 0)
    by (change 0 with (inject_Z 0); rewrite inject_Z_injective; lia).
  split.
  - intros H. assert (E : inject_Z (Z.of_nat a) == inject_Z (Z.of_nat b)).
    { rewrite <- (Qmult_div_r (inject_Z (Z.of_nat a)) _ Hb'), H. ring. }
    rewrite inject_Z_injective in E. lia.
  - intros ->. unfold Qdiv. now apply Qmult_inv_r.
Qed.

Lemma categories_weighted c sk :
  In (c, sk) SKILL_CATEGORIES ->
  exists w, dict_get c CATEGORY_WEIGHTS = Some w /\ 0 < w.
Proof.
  intros H. simpl in H.
  repeat destruct H as [H|H]; try contradiction; injection H as <- <-;
    eexists; split; try reflexivity; lra.
Qed.

Lemma weighted_loop_spec matched required cats s t :
  (forall c sk, In (c, sk) cats -> exists w, dict_get c CATEGORY_WEIGHTS = Some w /\ 0 < w) ->
  (forall c sk x, In (c, sk) cats -> In x sk -> In x matched -> In x required) ->
  0 <= s <= t ->
  exists s' t', weighted_skill_loop matched required cats s t = Some (s', t') /\
    0 <= s' <= t' /\
    (s' == t' <-> s == t /\
       forall c sk x, In (c, sk) cats -> In x sk -> In x required -> In x matched) /\
    ((s' = s /\ t' = t /\ forall c sk x, In (c, sk) cats -> In x sk -> ~ In x required)
     \/ t < t').
Proof.
  revert s t. induction cats as [|[c sk] cats IH]; intros s t Hw Hsub Hst;
    cbn [weighted_skill_loop].
  - exists s, t. split; [reflexivity|]. split; [exact Hst|]. split.
    + split; [intros H; split; [exact H|intros ? ? ? []]|intros [H _]; exact H].
    + left. split; [reflexivity|]. split; [reflexivity|]. intros ? ? ? [].
  - assert (Hw' : forall c' sk', In (c', sk') cats ->
              exists w, dict_get c' CATEGORY_WEIGHTS = Some w /\ 0 < w)
      by (intros; apply (Hw c' sk'); now right).
    assert (Hsub' : forall c' sk' x, In (c', sk') cats -> In x sk' -> In x matched -> In x required)
      by (intros c' sk' x Hc Hx Hm; apply (Hsub c' sk' x); [now right|exact Hx|exact Hm]).
    destruct (inter required sk) as [|y ys] eqn:Ereq.
    + assert (Hnone : forall x, In x sk -> ~ In x required).
      { intros x Hx Hr. assert (Hi : In x (inter required sk)) by (apply In_inter; auto).
        rewrite Ereq in Hi. destruct Hi. }
      destruct (IH s t Hw' Hsub' Hst) as [s' [t' [E [B [I D]]]]].
      exists s', t'. split; [exact E|]. split; [exact B|]. split.
      * rewrite I. split; intros [H1 H2]; split; try exact H1.
        -- intros c' sk' x [Hc|Hc] Hx Hr; [injection Hc as <- <-; now destruct (Hnone x Hx Hr)|].
           exact (H2 c' sk' x Hc Hx Hr).
        -- intros c' sk' x Hc. exact (H2 c' sk' x (or_intror Hc)).
      * destruct D as [[-> [-> D]]|D]; [left|right; exact D].
        split; [reflexivity|]. split; [reflexivity|].
        intros c' sk' x [Hc|Hc]; [injection Hc as <- <-; exact (Hnone x)|exact (D c' sk' x Hc)].
    + destruct (Hw c sk (or_introl eq_refl)) as [w [Ew Hw0]]. rewrite Ew.
      set (r := div_len (List.length (inter matched sk)) (List.length (y :: ys))).
      assert (Hmono : forall x, In x sk -> mem x matched = true -> mem x required = true).
      { intros x Hx Hm. apply mem_In. apply mem_In in Hm.
        exact (Hsub c sk x (or_introl eq_refl) Hx Hm). }
      assert (Hle : (List.length (inter matched sk) <= List.length (y :: ys))%nat).
      { rewrite <- Ereq. unfold inter. now apply filter_length_mono. }
      assert (Hr : 0 <= r <= 1) by (apply div_len_bounds; [exact Hle|simpl; lia]).
      assert (Hr1 : r == 1 <-> forall x, In x sk -> In x required -> In x matched).
      { unfold r. rewrite div_len_one by (simpl; lia). rewrite <- Ereq. unfold inter.
        rewrite (filter_length_eq _ _ sk Hmono).
        split; intros H x Hx Hreq; [apply mem_In; apply H; [exact Hx|now apply mem_In]|].
        apply mem_In. apply H; [exact Hx|now apply mem_In]. }
      assert (Hy : 0 <= r * w <= w).
      { split; [apply Qmult_le_0_compat; lra|].
        rewrite <- (Qmult_1_l w) at 2. apply Qmult_le_compat_r; lra. }
      assert (Hyw : r * w == w <-> r == 1).
      { rewrite <- (Qmult_inj_r r 1 w) by lra. rewrite Qmult_1_l. reflexivity. }
      assert (Hst' : 0 <= s + r * w <= t + w) by lra.
      destruct (IH (s + r * w) (t + w) Hw' Hsub' Hst') as [s' [t' [E [B [I D]]]]].
      exists s', t'. split; [exact E|]. split; [exact B|]. split.
      * rewrite I. split.
        -- intros [H1 H2].
           assert (Hsw : s == t /\ r * w == w) by (split; lra).
           split; [apply Hsw|]. intros c' sk' x [Hc|Hc] Hx Hreq.
           ++ injection Hc as <- <-. apply (proj1 Hr1); [apply Hyw, Hsw|exact Hx|exact Hreq].
           ++ exact (H2 c' sk' x Hc Hx Hreq).
        -- intros [H1 H2]. split.
           ++ assert (r * w == w) by (apply Hyw, Hr1; intros x Hx Hreq;
                exact (H2 c sk x (or_introl eq_refl) Hx Hreq)). lra.
           ++ intros c' sk' x Hc. exact (H2 c' sk' x (or_intror Hc)).
      * right. destruct D as [[_ [-> _]]|D]; lra.
Qed.

Lemma weighted_loop_none matched required cats s t :
  (forall c sk x, In (c, sk) cats -> In x sk -> ~ In x required) ->
  weighted_skill_loop matched required cats s t = Some (s, t).
Proof.
  induction cats as [|[c sk] cats IH]; intros H; cbn [weighted_skill_loop]; [reflexivity|].
  destruct (inter required sk) as [|y ys] eqn:Ereq.
  - apply IH. intros c' sk' x Hc. exact (H c' sk' x (or_intror Hc)).
  - exfalso. assert (Hy : In y (inter required sk)) by (rewrite Ereq; now left).
    apply In_inter in Hy as [Hy1 Hy2]. exact (H c sk y (or_introl eq_refl) Hy2 Hy1).
Qed.

End WeightedFacts.

Module WeightedProps.
Import PyStr Constants SkillExtractor Scorer WeightedFacts.

(** [compute_weighted_skill_score] when every category skill of
    [matched_skills] is also required: no [KeyError], a score in [0, 1],
    and the score is 1 exactly when every required skill of every category
    is matched. *)
Theorem weighted_skill_score_bounds (matched required : list string) :
  (forall c sk x, In (c, sk) SKILL_CATEGORIES -> In x sk -> In x matched -> In x required) ->
  exists v, compute_weighted_skill_score matched required = Some v /\ 0 <= v <= 1 /\
    (v == 1 <-> forall c sk x,
       In (c, sk) SKILL_CATEGORIES -> In x sk -> In x required -> In x matched).
Proof.
  intros Hsub.
  assert (H00 : 0 <= 0 <= 0) by lra.
  destruct (weighted_loop_spec matched required SKILL_CATEGORIES 0 0 categories_weighted Hsub H00)
    as [s' [t' [E [B [I D]]]]].
  unfold compute_weighted_skill_score. rewrite E.
  destruct (Qle_bool t' 0) eqn:Et; simpl.
  - apply Qle_bool_iff in Et.
    destruct D as [[-> [-> D]]|D]; [|lra].
    exists 1. split; [reflexivity|]. split; [lra|].
    split; [intros _ c sk x Hc Hx Hr; destruct (D c sk x Hc Hx Hr)|intros _; reflexivity].
  - assert (Ht : 0 < t').
    { apply Qnot_le_lt. intros Hle. apply Qle_bool_iff in Hle. congruence. }
    exists (s' / t'). split; [reflexivity|]. split.
    + split; [apply Qle_shift_div_l; lra|apply Qle_shift_div_r; lra].
    + assert (Hq : s' / t' == 1 <-> s' == t').
      { split.
        - intros H. rewrite <- (Qmult_div_r s' t') by lra. rewrite H. ring.
        - intros H. rewrite H. unfold Qdiv. apply Qmult_inv_r. lra. }
      rewrite Hq, I. split; [intros [_ H]; exact H|intros H; split; [reflexivity|exact H]].
Qed.

Lemma weighted_skill_score_bounds_witness :
  (forall c sk x, In (c, sk) SKILL_CATEGORIES -> In x sk ->
     In x ["python"] -> In x ["python"; "docker"]) /\
  exists v, compute_weighted_skill_score ["python"] ["python"; "docker"] = Some v /\
    0 <= v <= 1 /\
    (v == 1 <-> forall c sk x, In (c, sk) SKILL_CATEGORIES -> In x sk ->
       In x ["python"; "docker"] -> In x ["python"]).
Proof.
  assert (H : forall c sk x, In (c, sk) SKILL_CATEGORIES -> In x sk ->
     In x ["python"] -> In x ["python"; "docker"])
    by (intros c sk x _ _ [<-|[]]; simpl; now left).
  split; [exact H|]. exact (weighted_skill_score_bounds ["python"] ["python"; "docker"] H).
Defined.

(** When no skill of any category is required, [compute_weighted_skill_score]
    returns 1.0, whatever the matched skills. *)
Theorem weighted_skill_score_no_requirement (matched required : list string) :
  (forall c sk x, In (c, sk) SKILL_CATEGORIES -> In x sk -> ~ In x required) ->
  compute_weighted_skill_score matched required = Some 1.
Proof.
  intros H. unfold compute_weighted_skill_score.
  rewrite (weighted_loop_none matched required SKILL_CATEGORIES 0 0 H). reflexivity.
Qed.

Lemma weighted_skill_score_no_requirement_witness :
  (forall c sk x, In (c, sk) SKILL_CATEGORIES -> In x sk -> ~ In x ["rust"]) /\
  compute_weighted_skill_score ["python"] ["rust"] = Some 1.
Proof.
  assert (H : forall c sk x, In (c, sk) SKILL_CATEGORIES -> In x sk -> ~ In x ["rust"]).
  { intros c sk x Hc Hx [<-|[]]. simpl in Hc.
    repeat destruct Hc as [Hc|Hc]; try contradiction; injection Hc as <- <-;
      simpl in Hx; repeat destruct Hx as [Hx|Hx]; try discriminate; contradiction. }
  split; [exact H|]. exact (weighted_skill_score_no_requirement ["python"] ["rust"] H).
Defined.

End WeightedProps.

(** ** More facts about the string functions *)

Module StrFacts2.
Import PyStr SkillExtractor SkillFacts StrFacts Predicates.
Local Open Scope list_scope.

Lemma dropsp_all_space l : Forall space l -> dropsp l = [].
Proof.
  induction l as [|c l IH]; intros H; simpl; [reflexivity|].
  inversion H as [|? ? Hc Hl]; subst. unfold space in Hc. rewrite Hc. now apply IH.
Qed.

Lemma is_blank_spec s : is_blank s = true <-> Forall space (chars s).
Proof.
  split; [apply blank_all_space|].
  intros H. unfold is_blank.
  assert (E : chars (strip s) = chars EmptyString).
  { rewrite chars_strip, (dropsp_all_space _ H). reflexivity. }
  apply chars_inj in E. now rewrite E.
Qed.






Lemma chars_app s t : chars (s ++ t)%string = chars s ++ chars t.
Proof. induction s as [|c s IH]; simpl; [reflexivity|]. now rewrite IH. Qed.

Lemma is_blank_app_l s t : is_blank s = false -> is_blank (s ++ t)%string = false.
Proof.
  intros H. destruct (is_blank (s ++ t)%string) eqn:E; [|reflexivity].
  apply is_blank_spec in E. rewrite chars_app in E. apply Forall_app in E as [E _].
  apply is_blank_spec in E. congruence.
Qed.

Lemma is_blank_app_r s t : is_blank t = false -> is_blank (s ++ t)%string = false.
Proof.
  intros H. destruct (is_blank (s ++ t)%string) eqn:E; [|reflexivity].
  apply is_blank_spec in E. rewrite chars_app in E. apply Forall_app in E as [_ E].
  apply is_blank_spec in E. congruence.
Qed.

Lemma lower_app s t : lower (s ++ t) = (lower s ++ lower t)%string.
Proof. induction s as [|c s IH]; simpl; [reflexivity|]. now rewrite IH. Qed.

Lemma sub_nonkept_app s t : sub_nonkept (s ++ t) = (sub_nonkept s ++ sub_nonkept t)%string.
Proof. induction s as [|c s IH]; simpl; [reflexivity|]. now rewrite IH. Qed.

Lemma normalize_app s t : _normalize_text (s ++ t) = (_normalize_text s ++ _normalize_text t)%string.
Proof. unfold _normalize_text. now rewrite lower_app, sub_nonkept_app. Qed.

Lemma prefix_app p h t : String.prefix p h = true -> String.prefix p (h ++ t) = true.
Proof.
  revert h; induction p as [|a p IH]; intros h H; [destruct (h ++ t)%string; reflexivity|].
  destruct h as [|b h]; simpl in H; [discriminate|]. simpl.
  destruct (ascii_dec a b); [now apply IH|discriminate].
Qed.

Lemma contains_app_l p s t : contains p s = true -> contains p (s ++ t) = true.
Proof.
  induction s as [|c s IH]; intros H.
  - cbn [contains] in H. destruct p; [destruct t; reflexivity|discriminate].
  - cbn [contains] in H |- *. change ((String c s ++ t)%string) with (String c (s ++ t)).
    apply orb_true_iff in H as [H|H]; apply orb_true_iff.
    + left. change (String c (s ++ t)) with ((String c s) ++ t)%string. now apply prefix_app.
    + right. now apply IH.
Qed.

Lemma contains_app_r p s t : contains p t = true -> contains p (s ++ t) = true.
Proof.
  induction s as [|c s IH]; intros H; [exact H|].
  cbn [contains]. simpl. apply orb_true_iff. right. now apply IH.
Qed.


Lemma extract_skills_app_l a b x :
  In x (extract_skills a) -> In x (extract_skills (a ++ b)).
Proof.
  unfold extract_skills. destruct (is_blank a) eqn:Ha; [intros []|].
  rewrite (is_blank_app_l a b Ha). rewrite !filter_In. intros [Hv Hc]. split; [exact Hv|].
  rewrite normalize_app. now apply contains_app_l.
Qed.

Lemma extract_skills_app_r a b x :
  In x (extract_skills b) -> In x (extract_skills (a ++ b)).
Proof.
  unfold extract_skills. destruct (is_blank b) eqn:Hb; [intros []|].
  rewrite (is_blank_app_r a b Hb). rewrite !filter_In. intros [Hv Hc]. split; [exact Hv|].
  rewrite normalize_app. now apply contains_app_r.
Qed.

Lemma filter_length_all {A} (f : A -> bool) l :
  List.length (filter f l) = List.length l <-> forall x, In x l -> f x = true.
Proof.
  induction l as [|a l IH]; simpl; [split; [intros _ x []|reflexivity]|].
  pose proof (filter_length f l) as Hfl.
  destruct (f a) eqn:Fa; simpl.
  - split.
    + intros H. injection H as H. intros x [<-|Hx]; [exact Fa|]. now apply IH.
    + intros H. f_equal. apply IH. intros x Hx. apply H. now right.
  - split; [intros H; assert (List.length (filter f l) <= List.length l)%nat
             by lia; lia|].
    intros H. specialize (H a (or_introl eq_refl)). congruence.
Qed.

Lemma filter_nil_iff {A} (f : A -> bool) l :
  filter f l = [] <-> forall x, In x l -> f x = false.
Proof.
  induction l as [|a l IH]; simpl; [split; [intros _ x []|reflexivity]|].
  destruct (f a) eqn:Fa.
  - split; [discriminate|]. intros H. specialize (H a (or_introl eq_refl)). congruence.
  - rewrite IH. split; intros H x; [intros [<-|Hx]; [exact Fa|now apply H]|].
    intros Hx. apply H. now right.
Qed.

Lemma sorted_nil l : sorted l = [] <-> l = [].
Proof.
  split; intros H; [|now subst].
  apply Permutation_nil. rewrite <- H. apply sorted_perm.
Qed.

Lemma div_len_zero a b : (0 < b)%nat -> (div_len a b == 0 <-> a = 0%nat).
Proof.
  intros Hb. unfold div_len.
  assert (Hb' : ~ inject_Z (Z.of_nat b) == 0)
    by (change 0 with (inject_Z 0); rewrite inject_Z_injective; lia).
  split.
  - intros H. assert (E : inject_Z (Z.of_nat a) == inject_Z 0).
    { rewrite <- (Qmult_div_r (inject_Z (Z.of_nat a)) _ Hb'), H. ring. }
    rewrite inject_Z_injective in E. lia.
  - intros ->. reflexivity.
Qed.

End StrFacts2.

Module SkillProps.
Import PyStr SkillExtractor SkillFacts StrFacts StrFacts2 WeightedFacts.
Local Open Scope list_scope.


(** Adding text never removes a skill: every skill extracted from [a] or
    from [b] is extracted from [a ++ b]. *)
Theorem extract_skills_concat (a b : string) :
  incl (extract_skills a) (extract_skills (a ++ b)%string) /\
  incl (extract_skills b) (extract_skills (a ++ b)%string).
Proof.
  split; intros x; [apply extract_skills_app_l|apply extract_skills_app_r].
Qed.

(** The overlap ratio of [match_skills] lies in [0, 1]; it is 1 exactly when
    no skill is missing, and 0 exactly when nothing is matched while some JD
    skill is missing. *)
Theorem match_skills_ratio (resume_text jd_text : string) :
  let '(matched, missing, ratio) := match_skills resume_text jd_text in
  0 <= ratio <= 1 /\
  (ratio == 1 <-> missing = []) /\
  (ratio == 0 <-> matched = [] /\ missing <> []).
Proof.
  unfold match_skills.
  destruct (extract_skills jd_text) as [|x xs] eqn:EJ.
  - split; [lra|]. split; [split; [reflexivity|intros; reflexivity]|].
    split; [intros H; discriminate H|intros [_ H]; now destruct H].
  - set (R := extract_skills resume_text). set (J := x :: xs).
    assert (HJ : (0 < List.length J)%nat) by (simpl; lia).
    split; [apply div_len_bounds; [apply filter_length_le|exact HJ]|].
    split.
    + rewrite div_len_one by exact HJ. unfold inter, diff.
      rewrite filter_length_all, sorted_nil, filter_nil_iff.
      split; intros H y Hy; specialize (H y Hy);
        [now rewrite H|now destruct (mem y R)].
    + rewrite div_len_zero by exact HJ. unfold inter, diff.
      rewrite sorted_nil, sorted_nil, length_zero_iff_nil.
      split.
      * intros H. split; [exact H|]. intros Hm.
        rewrite filter_nil_iff in H, Hm. specialize (H x (or_introl eq_refl)).
        specialize (Hm x (or_introl eq_refl)). rewrite H in Hm. discriminate.
      * intros [H _]. exact H.
Qed.

(** A resume that contains the whole job description text matches every
    skill of the job description: nothing is missing and the overlap ratio
    is 1. *)
Theorem match_skills_resume_contains_jd (pre jd_text post : string) :
  let '(matched, missing, ratio) := match_skills (pre ++ jd_text ++ post)%string jd_text in
  matched = sorted (extract_skills jd_text) /\ missing = [] /\ ratio == 1.
Proof.
  unfold match_skills.
  set (R := extract_skills (pre ++ jd_text ++ post)%string).
  assert (HR : forall y, In y (extract_skills jd_text) -> mem y R = true).
  { intros y Hy. apply mem_In. apply extract_skills_app_r, extract_skills_app_l. exact Hy. }
  destruct (extract_skills jd_text) as [|x xs] eqn:EJ.
  - split; [reflexivity|]. split; [reflexivity|]. reflexivity.
  - assert (Hi : inter R (x :: xs) = x :: xs).
    { unfold inter. clear EJ. induction (x :: xs) as [|y ys IH]; [reflexivity|].
      simpl. rewrite (HR y (or_introl eq_refl)). f_equal. apply IH.
      intros z Hz. apply HR. now right. }
    assert (Hd : diff (x :: xs) R = []).
    { unfold diff. apply filter_nil_iff. intros y Hy. now rewrite (HR y Hy). }
    rewrite Hi, Hd. split; [reflexivity|]. split; [reflexivity|].
    apply div_len_one; [simpl; lia|reflexivity].
Qed.

End SkillProps.

(** ** Facts about rounding and the final score *)

Module RoundFacts.
Import Scorer.

Lemma round_half_even_mono x y : x <= y -> (round_half_even x <= round_half_even y)%Z.
Proof.
  intros Hxy. unfold round_half_even.
  pose proof (Qfloor_resp_le x y Hxy) as Hf.
  pose proof (Qfloor_le x) as Lx. pose proof (Qlt_floor x) as Ux.
  pose proof (Qfloor_le y) as Ly. pose proof (Qlt_floor y) as Uy.
  set (fx := Qfloor x) in *. set (fy := Qfloor y) in *.
  assert (Hcase : (fx < fy)%Z \/ fx = fy) by lia.
  assert (Hb : forall f r, (f <= (if negb (Qle_bool (1 # 2) r) then f
                  else if negb (Qle_bool r (1 # 2)) then (f + 1)%Z
                  else if Z.even f then f else (f + 1)%Z) <= f + 1)%Z).
  { intros f r. destruct (negb _); [lia|]. destruct (negb _); [lia|].
    destruct (Z.even f); lia. }
  destruct Hcase as [Hlt|Heq].
  - pose proof (Hb fx (x - inject_Z fx)) as [_ H1].
    pose proof (Hb fy (y - inject_Z fy)) as [H2 _]. lia.
  - rewrite <- Heq. set (rx := x - inject_Z fx). set (ry := y - inject_Z fx).
    assert (Hr : rx <= ry) by (unfold rx, ry; lra).
    destruct (Qle_bool (1 # 2) rx) eqn:A1; simpl;
      [|destruct (negb (Qle_bool (1 # 2) ry)); [lia|];
        destruct (negb (Qle_bool ry (1 # 2))); [lia|]; destruct (Z.even fx); lia].
    apply Qle_bool_iff in A1.
    assert (A2 : Qle_bool (1 # 2) ry = true) by (apply Qle_bool_iff; lra).
    rewrite A2. simpl.
    destruct (Qle_bool rx (1 # 2)) eqn:B1; simpl.
    + destruct (Qle_bool ry (1 # 2)) eqn:B2; simpl; [|destruct (Z.even fx); lia].
      reflexivity.
    + assert (B2 : Qle_bool ry (1 # 2) = false).
      { destruct (Qle_bool ry (1 # 2)) eqn:B2; [|reflexivity].
        apply Qle_bool_iff in B2.
        assert (rx <= 1 # 2) by lra. apply Qle_bool_iff in H. congruence. }
      rewrite B2. simpl. lia.
Qed.

Lemma round_half_even_Z z : round_half_even (inject_Z z) = z.
Proof.
  unfold round_half_even. rewrite Qfloor_Z.
  assert (E : Qle_bool (1 # 2) (inject_Z z - inject_Z z) = false).
  { destruct (Qle_bool (1 # 2) (inject_Z z - inject_Z z)) eqn:E; [|reflexivity].
    apply Qle_bool_iff in E. lra. }
  now rewrite E.
Qed.

Lemma pow10_pos k : 0 < inject_Z (10 ^ Z.of_nat k).
Proof.
  change 0 with (inject_Z 0). rewrite <- Zlt_Qlt. apply Z.pow_pos_nonneg; lia.
Qed.

Lemma round_digits_mono k x y : x <= y -> round_digits k x <= round_digits k y.
Proof.
  intros H. unfold round_digits.
  pose proof (pow10_pos k) as Hp.
  set (p := inject_Z (10 ^ Z.of_nat k)) in *.
  unfold Qdiv. apply Qmult_le_compat_r; [|apply Qlt_le_weak, Qinv_lt_0_compat; exact Hp].
  rewrite <- Zle_Qle. apply round_half_even_mono.
  apply Qmult_le_compat_r; [exact H|lra].
Qed.

Lemma round_digits_Z k z : round_digits k (inject_Z z) == inject_Z z.
Proof.
  unfold round_digits. pose proof (pow10_pos k) as Hp.
  rewrite <- inject_Z_mult, round_half_even_Z, inject_Z_mult.
  unfold Qdiv. rewrite <- Qmult_assoc, Qmult_inv_r by lra. ring.
Qed.

Lemma round_digits_range k x (lo hi : Z) :
  inject_Z lo <= x <= inject_Z hi -> inject_Z lo <= round_digits k x <= inject_Z hi.
Proof.
  intros [H1 H2]. split.
  - rewrite <- (round_digits_Z k lo). now apply round_digits_mono.
  - rewrite <- (round_digits_Z k hi). now apply round_digits_mono.
Qed.

Lemma final_score_range_aux s k e :
  0 <= s <= 1 -> 0 <= k <= 1 -> 0 <= e <= 1 ->
  0 <= compute_final_score s k e <= 100.
Proof.
  intros Hs Hk He. unfold compute_final_score, Constants.SEMANTIC_SIMILARITY_WEIGHT,
    Constants.SKILL_MATCH_WEIGHT, Constants.EXPERIENCE_MATCH_WEIGHT.
  apply (round_digits_range 2 _ 0 100). cbv [inject_Z]. split; lra.
Qed.

End RoundFacts.

Module FinalScoreProps.
Import Scorer RoundFacts.

(** [compute_final_score] is monotone: raising any of the semantic, skill or
    experience inputs never lowers the final score. *)
Theorem final_score_monotone (s1 s2 k1 k2 e1 e2 : Q) :
  s1 <= s2 -> k1 <= k2 -> e1 <= e2 ->
  compute_final_score s1 k1 e1 <= compute_final_score s2 k2 e2.
Proof.
  intros Hs Hk He. unfold compute_final_score, Constants.SEMANTIC_SIMILARITY_WEIGHT,
    Constants.SKILL_MATCH_WEIGHT, Constants.EXPERIENCE_MATCH_WEIGHT.
  apply round_digits_mono. lra.
Qed.

Lemma final_score_monotone_witness :
  ((1 # 2) <= (3 # 4) /\ 0 <= (1 # 3) /\ 1 <= 1) /\
  compute_final_score (1 # 2) 0 1 <= compute_final_score (3 # 4) (1 # 3) 1.
Proof.
  assert (H1 : (1 # 2) <= (3 # 4)) by lra.
  assert (H2 : 0 <= (1 # 3)) by lra.
  assert (H3 : 1 <= 1) by lra.
  split; [split; [exact H1|split; [exact H2|exact H3]]|].
  exact (final_score_monotone _ _ _ _ _ _ H1 H2 H3).
Defined.

(** For inputs in [0, 1], [compute_final_score] lies in [0, 100]. *)
Theorem final_score_range (s k e : Q) :
  0 <= s <= 1 -> 0 <= k <= 1 -> 0 <= e <= 1 ->
  0 <= compute_final_score s k e <= 100.
Proof. apply final_score_range_aux. Qed.

Lemma final_score_range_witness :
  (0 <= (1 # 2) <= 1 /\ 0 <= 1 <= 1 /\ 0 <= 0 <= 1) /\
  0 <= compute_final_score (1 # 2) 1 0 <= 100.
Proof.
  assert (H1 : 0 <= (1 # 2) <= 1) by lra.
  assert (H2 : 0 <= 1 <= 1) by lra.
  assert (H3 : 0 <= 0 <= 1) by lra.
  split; [split; [exact H1|split; [exact H2|exact H3]]|].
  exact (final_score_range _ _ _ H1 H2 H3).
Defined.

End FinalScoreProps.

(** ** Facts about [evaluate] *)

Module PipelineFacts.
Import PyStr SkillExtractor Scorer Similarity Pipeline Models ScorerFacts RoundFacts
  WeightedFacts CoverageFacts.
Local Open Scope list_scope.

Lemma match_skills_ratio_range r j :
  let '(_, _, ratio) := match_skills r j in 0 <= ratio <= 1.
Proof.
  unfold match_skills. destruct (extract_skills j) as [|x xs]; [lra|].
  apply div_len_bounds; [apply filter_length_le|simpl; lia].
Qed.

Lemma evaluate_valid encode cosine format_2f r j result :
  evaluate encode cosine format_2f r j = inr result -> EvaluationResponse_valid result.
Proof.
  unfold evaluate, bind. cbv zeta.
  destruct (average_max_cosine_similarity cosine _ _) as [e|v] eqn:A; [discriminate|].
  pose proof (amc_bounds _ _ _ _ A) as Hv.
  pose proof (match_skills_ratio_range r j) as Hm.
  destruct (match_skills r j) as [[m miss] ratio].
  pose proof (experience_score_bounds r j) as He.
  unfold ret. intros H. injection H as <-.
  unfold EvaluationResponse_valid. simpl.
  split; [now apply final_score_range_aux|].
  split; apply (round_digits_range 3 _ 0 1); exact Hv || exact He.
Qed.

End PipelineFacts.

Module PipelineProps.
Import PyStr Similarity Pipeline Models PipelineFacts.

(** Every result [evaluate] returns satisfies the field bounds of the API's
    [EvaluationResponse]: [fit_score] in [0, 100], and
    [semantic_similarity_score] and [experience_match_score] in [0, 1];
    this holds for any embedding model and any kernel. *)
Theorem evaluate_response_valid encode cosine format_2f resume_text jd_text result :
  evaluate encode cosine format_2f resume_text jd_text = inr result ->
  EvaluationResponse_valid result.
Proof. apply evaluate_valid. Qed.

Lemma evaluate_response_valid_witness :
  let encode := fun texts : list string =>
    mk_ndarray [List.length texts; 1%nat] (repeat (Fin 1) (List.length texts)) in
  let cosine := fun _ _ : list Q => 1 in
  let format_2f := fun _ : Q => "1.00" in
  let default := {| fit_score := 0; semantic_similarity_score := 0; matched_skills := [];
                    missing_skills := []; experience_match_score := 0; explanation := "" |} in
  let result := match evaluate encode cosine format_2f "Python, 3 years." "Python, 2 years."
                with inr r => r | inl _ => default end in
  evaluate encode cosine format_2f "Python, 3 years." "Python, 2 years." = inr result /\
  EvaluationResponse_valid result.
Proof.
  intros encode cosine format_2f default result.
  assert (H : evaluate encode cosine format_2f "Python, 3 years." "Python, 2 years." = inr result)
    by (vm_compute; reflexivity).
  split; [exact H|]. exact (evaluate_response_valid _ _ _ _ _ _ H).
Defined.

End PipelineProps.

(** ** Facts about [semantic_skill_match] *)

Module SemanticFacts.
Import PyStr SkillExtractor SkillFacts SimFacts SemanticSkills.
Local Open Scope list_scope.

Lemma In_set_add s x l : In s (set_add x l) <-> In s l \/ s = x.
Proof.
  unfold set_add. destruct (mem x l) eqn:E.
  - apply mem_In in E. split; [now left|intros [H| ->]; assumption].
  - rewrite in_app_iff. simpl. intuition.
Qed.

Lemma NoDup_set_add x l : NoDup l -> NoDup (set_add x l).
Proof.
  unfold set_add. destruct (mem x l) eqn:E; intros H; [exact H|].
  apply NoDup_app; [exact H|repeat constructor; auto|].
  intros y Hy [<-|[]]. apply mem_In in Hy. congruence.
Qed.

Lemma max_ge_iff t x l : Qle_bool t (fold_left Qmax l x) = true <-> exists y, In y (x :: l) /\ t <= y.
Proof.
  rewrite Qle_bool_iff. split.
  - intros H. exists (fold_left Qmax l x). split; [apply fold_max_in|exact H].
  - intros [y [Hy Ht]]. apply Qle_trans with y; [exact Ht|now apply fold_max_ge].
Qed.

Lemma semantic_loop_ok items m t matched :
  mrows m <> [] ->
  (forall skill emb, In (skill, emb) items -> List.length emb = ncols m) ->
  NoDup matched ->
  exists res, semantic_loop items m t matched = inr res /\ NoDup res /\
    forall s, In s res <-> In s matched \/
      exists emb, In (s, emb) items /\ exists r, In r (mrows m) /\ t <= vdot r emb.
Proof.
  intros Hm. revert matched. induction items as [|[skill emb] items IH]; intros matched Hd Hn.
  - exists matched. split; [reflexivity|]. split; [exact Hn|].
    intros s. split; [now left|intros [H|[emb [[] _]]]; exact H].
  - simpl. unfold np_dot. rewrite (Hd skill emb (or_introl eq_refl)), Nat.eqb_refl.
    destruct (mrows m) as [|r0 rs] eqn:Er; [congruence|]. simpl.
    set (matched' := if Qle_bool t (fold_left Qmax (map (fun row => vdot row emb) rs) (vdot r0 emb))
                     then set_add skill matched else matched).
    assert (Hn' : NoDup matched')
      by (unfold matched'; destruct (Qle_bool _ _); [now apply NoDup_set_add|exact Hn]).
    assert (Hd' : forall s e, In (s, e) items -> List.length e = ncols m)
      by (intros s e H; apply (Hd s e); now right).
    destruct (IH matched' Hd' Hn') as [res [E [Hres Hiff]]].
    exists res. split; [exact E|]. split; [exact Hres|].
    intros s. rewrite Hiff. unfold matched'.
    destruct (Qle_bool t _) eqn:Q.
    + rewrite In_set_add. apply max_ge_iff in Q as [y [Hy Ht]].
      change (vdot r0 emb :: map (fun row => vdot row emb) rs) with (map (fun row => vdot row emb) (r0 :: rs))
        in Hy.
      apply in_map_iff in Hy as [r [<- Hr]].
      split.
      * intros [[H| ->]|[e [He Hr']]]; [now left|right|right].
        -- exists emb. split; [now left|]. exists r. now split.
        -- exists e. split; [now right|exact Hr'].
      * intros [H|[e [[He|He] Hr']]]; [now left; left|injection He as -> ->; now left; right|].
        right. exists e. now split.
    + split.
      * intros [H|[e [He Hr']]]; [now left|right]. exists e. split; [now right|exact Hr'].
      * intros [H|[e [[He|He] [r [Hr Ht]]]]]; [now left| |right; exists e; split; [exact He|]].
        -- injection He as -> ->. exfalso.
           assert (Qle_bool t (fold_left Qmax (map (fun row => vdot row e) rs) (vdot r0 e)) = true)
             as Q'.
           { apply max_ge_iff. exists (vdot r e). split; [|exact Ht].
             exact (in_map (fun row => vdot row e) (r0 :: rs) r Hr). }
           congruence.
        -- exists r. now split.
Qed.

Lemma semantic_loop_error items m t matched :
  (exists e, semantic_loop items m t matched = inl e) <->
  items <> [] /\
  (mrows m = [] \/ exists skill emb, In (skill, emb) items /\ List.length emb <> ncols m).
Proof.
  revert matched. induction items as [|[skill emb] items IH]; intros matched; simpl.
  - split; [intros [e H]; discriminate|intros [H _]; now destruct H].
  - unfold np_dot. destruct (Nat.eqb_spec (ncols m) (List.length emb)) as [Heq|Hne].
    + destruct (mrows m) as [|r0 rs] eqn:Er; simpl.
      * split; [intros _; split; [discriminate|now left]|intros _; now exists ZeroSizeReduction].
      * rewrite IH. split.
        -- intros [Hne [H|[s [e [He Hl]]]]]; [discriminate|].
           split; [discriminate|right]. exists s, e. split; [now right|exact Hl].
        -- intros [_ [H|[s [e [[He|He] Hl]]]]]; [discriminate| |].
           ++ injection He as -> ->. congruence.
           ++ split; [intros ->; destruct He|right]. exists s, e. now split.
    + split; [intros _; split; [discriminate|right]|intros _; now exists ShapeMismatch].
      exists skill, emb. split; [now left|congruence].
Qed.

End SemanticFacts.

Module SemanticProps.
Import PyStr SemanticSkills SemanticFacts.
Local Open Scope list_scope.



(** [semantic_skill_match] raises a NumPy [ValueError] exactly when there is
    at least one skill vector and either the resume matrix has no row
    ([np.max] of an empty array) or some skill vector's length differs from
    the matrix width ([np.dot] shape mismatch); with no skill vectors it
    returns the empty set, even for an empty matrix. *)
Theorem semantic_skill_match_errors (skill_embeddings : list (string * list Q))
    (resume_embeddings : matrix) (threshold : Q) :
  ((exists e, semantic_skill_match skill_embeddings resume_embeddings threshold = inl e) <->
   skill_embeddings <> [] /\
   (mrows resume_embeddings = [] \/
    exists skill emb, In (skill, emb) skill_embeddings /\
      List.length emb <> ncols resume_embeddings)) /\
  (skill_embeddings = [] ->
   semantic_skill_match skill_embeddings resume_embeddings threshold = inr []).
Proof.
  split; [apply semantic_loop_error|intros ->; reflexivity].
Qed.

(** Raising the threshold can only remove skills: if the call succeeds at
    [t2], it also succeeds at any [t1 <= t2], with a superset of skills. *)
Theorem semantic_skill_match_threshold (skill_embeddings : list (string * list Q))
    (resume_embeddings : matrix) (t1 t2 : Q) (matched2 : list string) :
  t1 <= t2 ->
  semantic_skill_match skill_embeddings resume_embeddings t2 = inr matched2 ->
  exists matched1, semantic_skill_match skill_embeddings resume_embeddings t1 = inr matched1 /\
    incl matched2 matched1.
Proof.
  intros Ht E2.
  destruct skill_embeddings as [|item items'] eqn:Es.
  - exists []. split; [reflexivity|]. injection E2 as <-. apply incl_refl.
  - rewrite <- Es in *.
    assert (Hne : ~ (mrows resume_embeddings = [] \/
                     exists skill emb, In (skill, emb) skill_embeddings /\
                       List.length emb <> ncols resume_embeddings)).
    { intros H. assert (Hc : exists e, semantic_loop skill_embeddings resume_embeddings t2 [] = inl e)
        by (apply semantic_loop_error; split; [rewrite Es; discriminate|exact H]).
      destruct Hc as [e Hc]. unfold semantic_skill_match in E2. congruence. }
    assert (Hm : mrows resume_embeddings <> []) by (intros H; apply Hne; now left).
    assert (Hd : forall skill emb, In (skill, emb) skill_embeddings ->
                   List.length emb = ncols resume_embeddings).
    { intros skill emb H. destruct (Nat.eq_dec (List.length emb) (ncols resume_embeddings))
        as [Heq|Hneq]; [exact Heq|]. exfalso. apply Hne. right. now exists skill, emb. }
    destruct (semantic_loop_ok skill_embeddings resume_embeddings t1 [] Hm Hd (NoDup_nil _))
      as [r1 [E1 [_ H1]]].
    destruct (semantic_loop_ok skill_embeddings resume_embeddings t2 [] Hm Hd (NoDup_nil _))
      as [r2 [E2' [_ H2]]].
    unfold semantic_skill_match in E2. rewrite E2 in E2'. injection E2' as <-.
    exists r1. split; [exact E1|].
    intros s Hs. apply H1. apply H2 in Hs as [[]|[emb [He [row [Hr Hv]]]]].
    right. exists emb. split; [exact He|]. exists row. split; [exact Hr|]. lra.
Qed.

Lemma semantic_skill_match_threshold_witness :
  let items := [("python", [1; 0]); ("docker", [0; 1])] in
  let m := mk_matrix 2 [[1; 0]; [1 # 2; 1 # 2]] in
  ((1 # 2) <= (65 # 100) /\ semantic_skill_match items m (65 # 100) = inr ["python"]) /\
  exists matched1, semantic_skill_match items m (1 # 2) = inr matched1 /\ incl ["python"] matched1.
Proof.
  intros items m.
  assert (H1 : (1 # 2) <= (65 # 100)) by lra.
  assert (H2 : semantic_skill_match items m (65 # 100) = inr ["python"]) by (vm_compute; reflexivity).
  split; [split; [exact H1|exact H2]|].
  exact (semantic_skill_match_threshold items m _ _ _ H1 H2).
Defined.

End SemanticProps.

(** ** More facts about the coverage score *)

Module SimFacts2.
Import Similarity SimFacts Predicates.
Local Open Scope list_scope.











(** The coverage score on finite rows, once the shape checks pass. *)
Lemma amc_value cosine S T :
  ~ invalid S T ->
  average_max_cosine_similarity cosine S T =
    match rows_finite (rows S), rows_finite (rows T) with
    | Some xs, Some ys => inr (clip (mean (map (fun x => row_max (map (cosine x) ys)) xs)) 0 1)
    | _, _ => inl (NotFinite "Input contains NaN or infinity.")
    end.
Proof.
  intros Hv. unfold average_max_cosine_similarity. rewrite (validate_ok S T Hv).
  unfold bind at 1. unfold cosine_similarity.
  destruct (rows_finite (rows S)), (rows_finite (rows T)); try reflexivity.
  unfold bind, ret. now rewrite map_map.
Qed.

End SimFacts2.

Module SimProps.
Import Similarity SimFacts SimFacts2 Predicates.
Local Open Scope list_scope.





End SimProps.

(** ** The pieces of the sentence splitter *)

Module SplitFacts.
Import PyStr StrFacts StrFacts2 Predicates.
Local Open Scope list_scope.

Lemma chars_replace_char o n s :
  chars (replace_char o n s) = map (fun c => if Ascii.eqb c o then n else c) (chars s).
Proof. induction s as [|c s IH]; simpl; [reflexivity|now rewrite IH]. Qed.

Lemma split_on_nonempty sep s : split_on sep s <> [].
Proof.
  induction s as [|c s IH]; simpl; [discriminate|].
  destruct (split_on sep s); [congruence|]. destruct (Ascii.eqb c sep); discriminate.
Qed.

(** Every piece of [s.split(sep)] is free of [sep] and made of characters
    of [s]. *)
Lemma split_on_pieces sep s p :
  In p (split_on sep s) -> ~ In sep (chars p) /\ incl (chars p) (chars s).
Proof.
  revert p; induction s as [|c s IH]; intros p Hp; simpl in Hp.
  - destruct Hp as [<-|[]]. split; [intros []|intros x []].
  - pose proof (split_on_nonempty sep s) as Hne.
    destruct (split_on sep s) as [|cur rest] eqn:E; [congruence|].
    destruct (Ascii.eqb c sep) eqn:Ec.
    + destruct Hp as [<-|Hp]; [split; [intros []|intros x []]|].
      destruct (IH p Hp) as [H1 H2]. split; [exact H1|]. intros x Hx. right. now apply H2.
    + destruct Hp as [<-|Hp].
      * destruct (IH cur (or_introl eq_refl)) as [H1 H2].
        split.
        -- simpl. intros [H|H]; [subst; now rewrite Ascii.eqb_refl in Ec|exact (H1 H)].
        -- intros x [Hx|Hx]; [now left|right; now apply H2].
      * destruct (IH p (or_intror Hp)) as [H1 H2].
        split; [exact H1|]. intros x Hx. right. now apply H2.
Qed.

(** Every character of [s] is [sep] or lies in one of the pieces. *)
Lemma split_on_cover sep s c :
  In c (chars s) -> c = sep \/ exists p, In p (split_on sep s) /\ In c (chars p).
Proof.
  induction s as [|d s IH]; intros Hc; simpl in Hc; [destruct Hc|].
  cbn [split_on].
  pose proof (split_on_nonempty sep s) as Hne.
  destruct (split_on sep s) as [|cur rest] eqn:E; [congruence|].
  destruct (Ascii.eqb d sep) eqn:Ed.
  - destruct Hc as [<-|Hc]; [left; now apply Ascii.eqb_eq|].
    destruct (IH Hc) as [H|[p [Hp Hcp]]]; [now left|right].
    exists p. split; [now right|exact Hcp].
  - destruct Hc as [<-|Hc]; [right; exists (String d cur); split; [now left|now left]|].
    destruct (IH Hc) as [H|[p [[<-|Hp] Hcp]]]; [now left|right|right].
    + exists (String d cur). split; [now left|now right].
    + exists p. split; [now right|exact Hcp].
Qed.

Lemma dropsp_incl l : incl (dropsp l) l.
Proof.
  induction l as [|c l IH]; simpl; [intros x []|].
  destruct (is_space c); [intros x Hx; right; now apply IH|apply incl_refl].
Qed.

Lemma strip_incl s : incl (chars (strip s)) (chars s).
Proof.
  intros x Hx. rewrite chars_strip in Hx.
  apply in_rev, dropsp_incl, in_rev, dropsp_incl in Hx. exact Hx.
Qed.

Lemma flat_map_blank_nil (l : list string) :
  (forall p, In p l -> is_blank p = true) ->
  flat_map (fun s => if is_blank s then [] else [strip s]) l = [].
Proof.
  induction l as [|p l IH]; intros H; simpl; [reflexivity|].
  rewrite (H p (or_introl eq_refl)). apply IH. intros q Hq. apply H. now right.
Qed.

Lemma dot_or_space_dec (c : ascii) : {c = "."%char \/ is_space c = true} + {~ (c = "."%char \/ is_space c = true)}.
Proof.
  destruct (ascii_dec c "."%char) as [->|Hd]; [left; now left|].
  destruct (is_space c) eqn:Es; [left; now right|right; intros [H|H]; congruence].
Defined.

End SplitFacts.

Module SplitProps.
Import PyStr StrFacts StrFacts2 SplitFacts Pipeline Predicates.
Local Open Scope list_scope.

(** For a non-blank text, [_tokenize_into_sentences] falls back to
    [[text]] exactly when the text consists only of '.' and whitespace;
    otherwise every sentence it returns is non-empty, trimmed, and holds
    neither a '.' nor a newline. *)
Theorem tokenize_sentence_shape (text : string) :
  is_blank text = false ->
  (Forall (fun c => c = "."%char \/ is_space c = true) (chars text) ->
     _tokenize_into_sentences text = [text]) /\
  (~ Forall (fun c => c = "."%char \/ is_space c = true) (chars text) ->
     Forall (fun s => s <> EmptyString /\ strip s = s /\
                      ~ In "."%char (chars s) /\ ~ In "010"%char (chars s))
       (_tokenize_into_sentences text)).
Proof.
  intros Hb. unfold _tokenize_into_sentences. rewrite Hb.
  set (R := replace_char "010"%char " "%char text).
  assert (HR : chars R = map (fun c => if Ascii.eqb c "010"%char then " "%char else c) (chars text))
    by apply chars_replace_char.
  assert (HnoNL : ~ In "010"%char (chars R)).
  { rewrite HR. intros H. apply in_map_iff in H as [d [Hd _]].
    destruct (Ascii.eqb d "010"%char) eqn:E; [discriminate|].
    subst. now rewrite Ascii.eqb_refl in E. }
  split.
  - intros Hall.
    rewrite flat_map_blank_nil; [reflexivity|].
    intros p Hp. apply is_blank_spec. apply Forall_forall. intros c Hc.
    destruct (split_on_pieces _ _ _ Hp) as [Hnd Hinc].
    pose proof (Hinc c Hc) as HcR. rewrite HR in HcR.
    apply in_map_iff in HcR as [d [Hd Hdt]].
    rewrite Forall_forall in Hall. destruct (Hall d Hdt) as [Hdot|Hsp].
    + destruct (Ascii.eqb d "010"%char) eqn:E.
      * subst. reflexivity.
      * subst. contradiction.
    + destruct (Ascii.eqb d "010"%char) eqn:E; subst; [reflexivity|exact Hsp].
  - intros Hnot.
    apply (Exists_Forall_neg _ _ (fun c => match dot_or_space_dec c with
                                          | left H => or_introl H | right H => or_intror H end))
      in Hnot.
    apply Exists_exists in Hnot as [d [Hdt Hd]].
    assert (Hds : is_space d = false)
      by (destruct (is_space d) eqn:E; [exfalso; apply Hd; now right|reflexivity]).
    assert (HdR : In d (chars R)).
    { rewrite HR. apply in_map_iff. exists d. split; [|exact Hdt].
      destruct (Ascii.eqb d "010"%char) eqn:E; [|reflexivity].
      apply Ascii.eqb_eq in E. subst. discriminate. }
    destruct (split_on_cover "."%char R d HdR) as [Hdot|[p [Hp Hdp]]];
      [exfalso; apply Hd; now left|].
    set (frags := flat_map (fun s => if is_blank s then [] else [strip s])
                    (split_on "."%char R)).
    assert (Hfr : forall e, In e frags ->
              e <> EmptyString /\ strip e = e /\ ~ In "."%char (chars e) /\ ~ In "010"%char (chars e)).
    { intros e He. apply in_flat_map in He as [q [Hq Hqe]].
      destruct (is_blank q) eqn:Hbq; [destruct Hqe|].
      destruct Hqe as [<-|[]].
      destruct (split_on_pieces _ _ _ Hq) as [Hnd Hinc].
      split; [now apply strip_not_blank|]. split; [apply strip_idem|].
      split; intros H; apply strip_incl in H; [exact (Hnd H)|exact (HnoNL (Hinc _ H))]. }
    assert (Hpb : is_blank p = false).
    { destruct (is_blank p) eqn:E; [|reflexivity].
      apply is_blank_spec in E. rewrite Forall_forall in E.
      specialize (E d Hdp). unfold space in E. congruence. }
    assert (Hin : In (strip p) frags).
    { apply in_flat_map. exists p. split; [exact Hp|]. rewrite Hpb. now left. }
    fold frags. destruct frags as [|f fs] eqn:Ef; [destruct Hin|].
    apply Forall_forall. exact Hfr.
Qed.

Lemma tokenize_sentence_shape_witness :
  is_blank "Python dev.
5 years. " = false /\
  (Forall (fun c => c = "."%char \/ is_space c = true) (chars "Python dev.
5 years. ") ->
     _tokenize_into_sentences "Python dev.
5 years. " = ["Python dev.
5 years. "]) /\
  (~ Forall (fun c => c = "."%char \/ is_space c = true) (chars "Python dev.
5 years. ") ->
     Forall (fun s => s <> EmptyString /\ strip s = s /\
                      ~ In "."%char (chars s) /\ ~ In "010"%char (chars s))
       (_tokenize_into_sentences "Python dev.
5 years. ")).
Proof.
  assert (H : is_blank "Python dev.
5 years. " = false) by reflexivity.
  split; [exact H|]. exact (tokenize_sentence_shape _ H).
Defined.

End SplitProps.

(** ** Facts about the app layer *)

Module AppFacts.
Import PyStr StrFacts StrFacts2 Similarity SimFacts SimFacts2 Pipeline Exceptions PdfParser
  Service Models Main Predicates CoverageFacts PipelineFacts.
Local Open Scope list_scope.

Lemma is_blank_app s t : is_blank (s ++ t)%string = is_blank s && is_blank t.
Proof.
  destruct (is_blank s) eqn:Es; [|rewrite andb_false_l; now apply is_blank_app_l].
  destruct (is_blank t) eqn:Et; [|rewrite andb_false_r; now apply is_blank_app_r].
  apply is_blank_spec. rewrite chars_app. apply Forall_app.
  split; now apply is_blank_spec.
Qed.

Lemma is_blank_concat_sp parts : is_blank (String.concat " " parts) = forallb is_blank parts.
Proof.
  induction parts as [|x [|y zs] IH]; [reflexivity| |].
  - cbn [String.concat forallb]. now rewrite andb_true_r.
  - change (String.concat " " (x :: y :: zs)) with (x ++ " " ++ String.concat " " (y :: zs))%string.
    rewrite !is_blank_app, IH. reflexivity.
Qed.

Lemma forallb_filter_nonempty l :
  forallb is_blank (filter (fun t => negb (String.eqb t "")) l) = forallb is_blank l.
Proof.
  induction l as [|x l IH]; [reflexivity|]. cbn [filter forallb].
  destruct (String.eqb_spec x "") as [->|Hx]; cbn [negb]; [exact IH|].
  cbn [forallb]. now rewrite IH.
Qed.

Lemma is_blank_strip s : is_blank (strip s) = is_blank s.
Proof. unfold is_blank. now rewrite strip_idem. Qed.

Lemma forallb_blank_Forall l :
  forallb is_blank l = true <-> Forall (fun t => is_blank t = true) l.
Proof. rewrite forallb_forall, Forall_forall. reflexivity. Qed.

Lemma chars_surj l : exists s, chars s = l.
Proof.
  induction l as [|c l [s Hs]]; [now exists EmptyString|].
  exists (String c s). simpl. now rewrite Hs.
Qed.

Lemma prefix_of_chars p h r : chars h = chars p ++ r -> String.prefix p h = true.
Proof.
  revert h; induction p as [|a p IH]; intros [|b h] H; simpl in *; try discriminate;
    try reflexivity.
  injection H as -> H. destruct (ascii_dec a a) as [_|n]; [exact (IH h H)|congruence].
Qed.

(** [s.endswith(suffix)] holds exactly when [s] is some string followed by
    [suffix]. *)
Lemma endswith_spec s suffix : endswith s suffix = true <-> exists p, s = (p ++ suffix)%string.
Proof.
  unfold endswith. split.
  - intros H. apply prefix_chars in H as [r Hr].
    rewrite !chars_rev_str in Hr. simpl in Hr. rewrite !app_nil_r in Hr.
    destruct (chars_surj (rev r)) as [p Hp]. exists p. apply chars_inj.
    rewrite chars_app, Hp, <- (rev_involutive (chars s)), Hr, rev_app_distr, rev_involutive.
    reflexivity.
  - intros [p ->]. apply (prefix_of_chars _ _ (rev (chars p))).
    rewrite !chars_rev_str, chars_app. simpl. rewrite !app_nil_r. apply rev_app_distr.
Qed.

Lemma extract_text_errors read_pdf b e :
  extract_text_from_pdf read_pdf b = inl e ->
  (Exceptions.status_code e = 400 \/ Exceptions.status_code e = 422)%nat.
Proof.
  unfold extract_text_from_pdf. destruct (read_pdf b) as [|msg|pages]; intros H.
  - injection H as <-. now left.
  - injection H as <-. now right.
  - destruct (is_blank _); [injection H as <-; now left|discriminate].
Qed.

Lemma evaluate_fit_facts encode cosine format_2f self resume_text job_description :
  let '(res, self') := evaluate_fit encode cosine format_2f self resume_text job_description in
  is_ready self' = is_ready self || succeeded res /\
  (succeeded res = false -> self' = self) /\
  (forall result, res = inr result -> EvaluationResponse_valid result) /\
  (forall e, res = inl e ->
     (e = EmptyJobDescriptionError /\ is_blank job_description = true) \/
     exists ve, e = Unhandled ve /\ is_blank job_description = false /\
       analyze_resume_job_fit encode cosine format_2f resume_text job_description = inl ve).
Proof.
  unfold evaluate_fit. destruct (is_blank job_description) eqn:Hb.
  - cbn [succeeded]. rewrite orb_false_r. split; [reflexivity|]. split; [reflexivity|].
    split; [discriminate|]. intros e H. injection H as <-. now left.
  - destruct (analyze_resume_job_fit encode cosine format_2f resume_text job_description)
      as [ve|result] eqn:A; cbn [succeeded].
    + rewrite orb_false_r. split; [reflexivity|]. split; [reflexivity|].
      split; [discriminate|]. intros e H. injection H as <-. right. now exists ve.
    + rewrite orb_true_r. split; [reflexivity|]. split; [discriminate|].
      split; [|discriminate]. intros r H. injection H as <-.
      exact (evaluate_valid encode cosine format_2f resume_text job_description result A).
Qed.

Lemma endpoint_facts read_pdf encode cosine format_2f svc resume job_description :
  let '(res, svc') :=
    evaluate_resume_job_fit read_pdf encode cosine format_2f svc resume job_description in
  is_ready svc' = is_ready svc || succeeded res /\
  (succeeded res = false -> svc' = svc) /\
  (forall result, res = inr result -> EvaluationResponse_valid result) /\
  (forall e, res = inl e ->
     (endswith (lower (filename resume)) ".pdf" = false /\ e = InvalidFileError) \/
     (endswith (lower (filename resume)) ".pdf" = true /\
      extract_text_from_pdf read_pdf (content resume) = inl e) \/
     exists resume_text,
       endswith (lower (filename resume)) ".pdf" = true /\
       extract_text_from_pdf read_pdf (content resume) = inr resume_text /\
       ((e = EmptyJobDescriptionError /\ is_blank job_description = true) \/
        exists ve, e = Unhandled ve /\ is_blank job_description = false /\
          analyze_resume_job_fit encode cosine format_2f resume_text job_description = inl ve)).
Proof.
  unfold evaluate_resume_job_fit.
  destruct (endswith (lower (filename resume)) ".pdf") eqn:Hf; cbn [negb].
  - destruct (extract_text_from_pdf read_pdf (content resume)) as [e|txt] eqn:Ex.
    + cbn [succeeded]. rewrite orb_false_r. split; [reflexivity|]. split; [reflexivity|].
      split; [discriminate|]. intros e' H. injection H as <-. right. left. now split.
    + pose proof (evaluate_fit_facts encode cosine format_2f svc txt job_description) as F.
      destruct (evaluate_fit encode cosine format_2f svc txt job_description) as [res svc'].
      destruct F as [F1 [F2 [F3 F4]]].
      split; [exact F1|]. split; [exact F2|]. split; [exact F3|].
      intros e He. right. right. exists txt. split; [reflexivity|]. split; [reflexivity|].
      exact (F4 e He).
  - cbn [succeeded]. rewrite orb_false_r. split; [reflexivity|]. split; [reflexivity|].
    split; [discriminate|]. intros e H. injection H as <-. left. now split.
Qed.

Lemma handle_ready read_pdf encode cosine format_2f svc req :
  let '(resp, svc') := handle read_pdf encode cosine format_2f svc req in
  is_ready svc' = is_ready svc || is_evaluation resp.
Proof.
  destruct req as [|resume job_description]; unfold handle.
  - cbn [is_evaluation health_check]. now rewrite orb_false_r.
  - pose proof (endpoint_facts read_pdf encode cosine format_2f svc resume job_description) as F.
    destruct (evaluate_resume_job_fit read_pdf encode cosine format_2f svc resume job_description)
      as [res svc'].
    destruct F as [F1 _]. rewrite F1. destruct res; reflexivity.
Qed.

Lemma handle_health read_pdf encode cosine format_2f svc req status loaded svc' :
  handle read_pdf encode cosine format_2f svc req = (HealthResponse status loaded, svc') ->
  loaded = is_ready svc.
Proof.
  destruct req as [|resume job_description]; unfold handle.
  - intros H. now injection H as _ <- _.
  - destruct (evaluate_resume_job_fit read_pdf encode cosine format_2f svc resume job_description)
      as [[e|r] s]; cbn [to_response]; intros H; discriminate.
Qed.

End AppFacts.

Module AppProps.
Import PyStr StrFacts Similarity SimFacts SimFacts2 Pipeline Exceptions PdfParser Service
  Models Main Predicates CoverageFacts AppFacts.
Local Open Scope list_scope.

(** For a PDF that PyPDF2 reads into page texts, [extract_text_from_pdf]
    raises [EmptyPDFError] exactly when every page text is blank, raises
    nothing else, and otherwise returns the stripped join of the non-empty
    page texts, which is trimmed and not blank. *)
Theorem extract_text_from_pdf_pages (read_pdf : list Byte.byte -> pdf_outcome)
    (file_content : list Byte.byte) (page_texts : list string) :
  read_pdf file_content = PageTexts page_texts ->
  (extract_text_from_pdf read_pdf file_content = inl EmptyPDFError <->
     Forall (fun t => is_blank t = true) page_texts) /\
  (forall e, extract_text_from_pdf read_pdf file_content = inl e -> e = EmptyPDFError) /\
  (forall text, extract_text_from_pdf read_pdf file_content = inr text ->
     text = strip (String.concat " " (filter (fun t => negb (String.eqb t "")) page_texts)) /\
     strip text = text /\ is_blank text = false).
Proof.
  intros Hr. unfold extract_text_from_pdf. rewrite Hr. cbv zeta.
  rewrite is_blank_concat_sp, forallb_filter_nonempty.
  destruct (forallb is_blank page_texts) eqn:Hb.
  - split; [split; [intros _; now apply forallb_blank_Forall|reflexivity]|].
    split; [intros e H; now injection H as <-|intros t H; discriminate].
  - split; [split; [discriminate|intros H; apply forallb_blank_Forall in H; congruence]|].
    split; [discriminate|].
    intros t H. injection H as <-. split; [reflexivity|]. split; [apply strip_idem|].
    rewrite is_blank_strip, is_blank_concat_sp, forallb_filter_nonempty. exact Hb.
Qed.

Lemma extract_text_from_pdf_pages_witness :
  let read_pdf := fun _ : list Byte.byte => PageTexts [""; "  Python developer "; "3 years"] in
  read_pdf [] = PageTexts [""; "  Python developer "; "3 years"] /\
  (extract_text_from_pdf read_pdf [] = inl EmptyPDFError <->
     Forall (fun t => is_blank t = true) [""; "  Python developer "; "3 years"]) /\
  (forall e, extract_text_from_pdf read_pdf [] = inl e -> e = EmptyPDFError) /\
  (forall text, extract_text_from_pdf read_pdf [] = inr text ->
     text = strip (String.concat " " (filter (fun t => negb (String.eqb t ""))
                                       [""; "  Python developer "; "3 years"])) /\
     strip text = text /\ is_blank text = false).
Proof.
  intros read_pdf.
  assert (H : read_pdf [] = PageTexts [""; "  Python developer "; "3 years"]) by reflexivity.
  split; [exact H|]. exact (extract_text_from_pdf_pages read_pdf [] _ H).
Defined.

(** [MLService.evaluate_fit] raises [EmptyJobDescriptionError] for a blank
    job description and wraps every pipeline error as an unhandled
    exception (HTTP 500); a failed call leaves the service unchanged, a
    successful one marks it ready, and every returned result satisfies the
    bounds of [EvaluationResponse]. *)
Theorem evaluate_fit_spec encode cosine format_2f (self : MLService)
    (resume_text job_description : string) :
  let '(res, self') := evaluate_fit encode cosine format_2f self resume_text job_description in
  (is_blank job_description = true -> res = inl EmptyJobDescriptionError /\ self' = self) /\
  is_ready self' = is_ready self || succeeded res /\
  (succeeded res = false -> self' = self) /\
  (forall result, res = inr result -> EvaluationResponse_valid result) /\
  (forall e, res = inl e ->
     e = EmptyJobDescriptionError \/
     exists ve, e = Unhandled ve /\
       analyze_resume_job_fit encode cosine format_2f resume_text job_description = inl ve).
Proof.
  pose proof (evaluate_fit_facts encode cosine format_2f self resume_text job_description) as F.
  assert (Hb : is_blank job_description = true ->
     evaluate_fit encode cosine format_2f self resume_text job_description =
       (inl EmptyJobDescriptionError, self))
    by (intros Hb; unfold evaluate_fit; now rewrite Hb).
  destruct (evaluate_fit encode cosine format_2f self resume_text job_description) as [res self'].
  destruct F as [F1 [F2 [F3 F4]]].
  split; [intros H; specialize (Hb H); now injection Hb as -> ->|].
  split; [exact F1|]. split; [exact F2|]. split; [exact F3|].
  intros e He. destruct (F4 e He) as [[-> _]|[ve [-> [_ A]]]]; [now left|right].
  now exists ve.
Qed.

(** The [/evaluate] endpoint: a file whose lowercased name does not end in
    ".pdf" is refused with 400 "Uploaded file is not a valid PDF" before its
    content is read; a PDF extraction error is answered with its own status
    and detail, before the job description is checked; an error response
    leaves the service unchanged and has status 400, 422 or 500, and 500
    ("Internal server error occurred") only when the ML pipeline itself
    raised on the extracted text; every evaluation returned satisfies the
    bounds of [EvaluationResponse] and leaves the service ready. *)
Theorem evaluate_endpoint_responses read_pdf encode cosine format_2f (svc : MLService)
    (resume : UploadFile) (job_description : string) :
  let '(resp, svc') :=
    handle read_pdf encode cosine format_2f svc (PostEvaluate resume job_description) in
  (forall result, resp = EvaluationResponse result ->
     EvaluationResponse_valid result /\ is_ready svc' = true) /\
  (forall code msg, resp = JSONResponse code msg ->
     svc' = svc /\ (code = 400 \/ code = 422 \/ code = 500)%nat /\
     (code = 500%nat -> msg = "Internal server error occurred" /\
        exists resume_text ve,
          extract_text_from_pdf read_pdf (content resume) = inr resume_text /\
          analyze_resume_job_fit encode cosine format_2f resume_text job_description = inl ve)) /\
  ((~ exists p, lower (filename resume) = (p ++ ".pdf")%string) ->
     resp = JSONResponse 400 "Uploaded file is not a valid PDF" /\ svc' = svc) /\
  (forall p e, lower (filename resume) = (p ++ ".pdf")%string ->
     extract_text_from_pdf read_pdf (content resume) = inl e ->
     resp = JSONResponse (Exceptions.status_code e) (detail e) /\ svc' = svc).
Proof.
  unfold handle.
  pose proof (endpoint_facts read_pdf encode cosine format_2f svc resume job_description) as F.
  destruct (evaluate_resume_job_fit read_pdf encode cosine format_2f svc resume job_description)
    as [res svc'] eqn:E.
  destruct F as [F1 [F2 [F3 F4]]].
  split; [|split; [|split]].
  - intros result H. destruct res as [e|r]; cbn [to_response] in H; [discriminate|].
    injection H as <-. split; [now apply F3|]. rewrite F1. apply orb_true_r.
  - intros code msg H. destruct res as [e|r]; cbn [to_response] in H; [|discriminate].
    injection H as <- <-. split; [now apply F2|].
    destruct (F4 e eq_refl) as [[_ ->]|[[_ Hx]|[txt [_ [Hx [[-> _]|[ve [-> [_ A]]]]]]]]].
    + split; [now left|discriminate].
    + destruct (extract_text_errors _ _ _ Hx) as [H|H]; rewrite H;
        (split; [auto|discriminate]).
    + split; [now left|discriminate].
    + split; [now right; right|]. intros _. split; [reflexivity|]. now exists txt, ve.
  - intros Hn. destruct (endswith (lower (filename resume)) ".pdf") eqn:Hf.
    + exfalso. apply Hn. now apply endswith_spec.
    + unfold evaluate_resume_job_fit in E. rewrite Hf in E. cbn [negb] in E.
      injection E as <- <-. split; reflexivity.
  - intros p e Hp Hx.
    assert (Hf : endswith (lower (filename resume)) ".pdf" = true)
      by (apply endswith_spec; now exists p).
    unfold evaluate_resume_job_fit in E. rewrite Hf, Hx in E. cbn [negb] in E.
    injection E as <- <-. split; reflexivity.
Qed.

(** Serving a sequence of requests: one response per request; afterwards
    the service is ready exactly when it was ready before or some request
    was answered with an evaluation; and every [/health] response reports
    [ml_model_loaded] as exactly that, over the requests answered before
    it (so from a fresh service, [false] until the first evaluation). *)
Theorem serve_readiness read_pdf encode cosine format_2f (svc : MLService) (reqs : list request) :
  let '(resps, svc') := serve read_pdf encode cosine format_2f svc reqs in
  List.length resps = List.length reqs /\
  is_ready svc' = is_ready svc || existsb is_evaluation resps /\
  (forall i status loaded, nth_error resps i = Some (HealthResponse status loaded) ->
     loaded = is_ready svc || existsb is_evaluation (firstn i resps)).
Proof.
  revert svc; induction reqs as [|req reqs IH]; intros svc; cbn [serve].
  - split; [reflexivity|]. split; [now rewrite orb_false_r|].
    intros [|i] ? ? H; discriminate.
  - pose proof (handle_ready read_pdf encode cosine format_2f svc req) as Hh.
    pose proof (handle_health read_pdf encode cosine format_2f svc req) as Hhealth.
    destruct (handle read_pdf encode cosine format_2f svc req) as [resp svc1].
    specialize (IH svc1).
    destruct (serve read_pdf encode cosine format_2f svc1 reqs) as [resps svc2].
    destruct IH as [L [R H]].
    split; [cbn [List.length]; now rewrite L|].
    split; [cbn [existsb]; now rewrite R, Hh, orb_assoc|].
    intros [|i] st b Hi; cbn [nth_error firstn existsb] in *.
    + injection Hi as ->. rewrite orb_false_r. exact (Hhealth st b svc1 eq_refl).
    + rewrite (H i st b Hi), Hh. symmetry. apply orb_assoc.
Qed.

Section EmbedderContract.

(** The Embedder contract, with finite entries: a batch of [n >= 1] strings
    is encoded as an [n x dim] matrix of finite floats, for one fixed
    positive [dim]. *)
Variable read_pdf : list Byte.byte -> pdf_outcome.
Variable encode : list string -> ndarray.
Variable cosine : list Q -> list Q -> Q.
Variable format_2f : Q -> string.
Variable dim : nat.
Hypothesis dim_pos : (0 < dim)%nat.
Hypothesis encode_shape :
  forall texts, texts <> [] -> shape (encode texts) = [List.length texts; dim].
Hypothesis encode_finite : forall texts, Forall is_fin (flat (encode texts)).

Lemma evaluate_ok (resume_text jd_text : string) :
  exists result, evaluate encode cosine format_2f resume_text jd_text = inr result.
Proof.
  pose proof (tokenize_nonempty resume_text) as Hr.
  pose proof (tokenize_nonempty jd_text) as Hj.
  set (RE := encode (_tokenize_into_sentences resume_text)).
  set (JE := encode (_tokenize_into_sentences jd_text)).
  assert (Hlen : forall l : list string, l <> [] -> (0 < List.length l)%nat).
  { intros [|x l] H; [congruence|simpl; lia]. }
  assert (Hv : ~ invalid JE RE).
  { unfold invalid, size, ndim, JE, RE.
    rewrite (encode_shape _ Hr), (encode_shape _ Hj). simpl.
    pose proof (Hlen _ Hr). pose proof (Hlen _ Hj).
    intros Hc. repeat destruct Hc as [Hc|Hc]; try lia. }
  destruct (rows_finite_ok (nth 0 (shape JE) 0%nat) (nth 1 (shape JE) 0%nat) (flat JE)
              (encode_finite _)) as [xs Hxs].
  destruct (rows_finite_ok (nth 0 (shape RE) 0%nat) (nth 1 (shape RE) 0%nat) (flat RE)
              (encode_finite _)) as [ys Hys].
  assert (A : average_max_cosine_similarity cosine JE RE =
              inr (clip (mean (map (fun x => row_max (map (cosine x) ys)) xs)) 0 1)).
  { rewrite (amc_value cosine JE RE Hv). unfold rows. now rewrite Hxs, Hys. }
  unfold evaluate, bind at 1. cbv zeta. fold RE JE. rewrite A.
  destruct (SkillExtractor.match_skills resume_text jd_text) as [[? ?] ?].
  eexists. reflexivity.
Qed.

(** Under the Embedder contract with finite entries, [evaluate] never
    raises: for every pair of texts it returns a result, and that result
    satisfies the bounds of [EvaluationResponse]. *)
Theorem evaluate_total (resume_text jd_text : string) :
  exists result, evaluate encode cosine format_2f resume_text jd_text = inr result /\
    EvaluationResponse_valid result.
Proof.
  destruct (evaluate_ok resume_text jd_text) as [result E].
  exists result. split; [exact E|]. exact (PipelineFacts.evaluate_valid _ _ _ _ _ _ E).
Qed.

(** Under the same contract, a [/evaluate] request whose file name ends in
    ".pdf" in any letter case, whose PDF has a page with non-blank text,
    and whose job description is not blank, is answered with an
    evaluation satisfying the bounds of [EvaluationResponse], and leaves
    the service ready. *)
Theorem evaluate_endpoint_success (svc : MLService) (resume : UploadFile)
    (job_description p : string) (page_texts : list string) :
  lower (filename resume) = (p ++ ".pdf")%string ->
  read_pdf (content resume) = PageTexts page_texts ->
  ~ Forall (fun t => is_blank t = true) page_texts ->
  is_blank job_description = false ->
  exists result,
    handle read_pdf encode cosine format_2f svc (PostEvaluate resume job_description) =
      (EvaluationResponse result, {| _pipeline_initialized := true |}) /\
    EvaluationResponse_valid result.
Proof.
  intros Hp Hr Hpages Hjd.
  assert (Hf : endswith (lower (filename resume)) ".pdf" = true)
    by (apply endswith_spec; now exists p).
  assert (Hx : extract_text_from_pdf read_pdf (content resume) =
               inr (strip (String.concat " " (filter (fun t => negb (String.eqb t "")) page_texts)))).
  { unfold extract_text_from_pdf. rewrite Hr. cbv zeta.
    rewrite is_blank_concat_sp, forallb_filter_nonempty.
    destruct (forallb is_blank page_texts) eqn:Hb; [|reflexivity].
    exfalso. apply Hpages. now apply forallb_blank_Forall. }
  set (txt := strip (String.concat " " (filter (fun t => negb (String.eqb t "")) page_texts)))
    in Hx.
  destruct (evaluate_ok txt job_description) as [result E].
  exists result. split; [|exact (PipelineFacts.evaluate_valid _ _ _ _ _ _ E)].
  unfold handle, evaluate_resume_job_fit. rewrite Hf, Hx. cbn [negb].
  unfold evaluate_fit, analyze_resume_job_fit. rewrite Hjd, E. reflexivity.
Qed.

End EmbedderContract.

Lemma evaluate_total_witness :
  let encode := fun texts : list string =>
    mk_ndarray [List.length texts; 1%nat] (repeat (Fin 1) (List.length texts)) in
  let cosine := fun _ _ : list Q => 1 in
  let format_2f := fun _ : Q => "1.00" in
  ((0 < 1)%nat /\
   (forall texts, texts <> [] -> shape (encode texts) = [List.length texts; 1%nat]) /\
   (forall texts, Forall is_fin (flat (encode texts)))) /\
  exists result, evaluate encode cosine format_2f "" "Kubernetes, 3 years." = inr result /\
    EvaluationResponse_valid result.
Proof.
  intros encode cosine format_2f.
  assert (H1 : (0 < 1)%nat) by lia.
  assert (H2 : forall texts, texts <> [] -> shape (encode texts) = [List.length texts; 1%nat])
    by (intros; reflexivity).
  assert (H3 : forall texts, Forall is_fin (flat (encode texts))).
  { intros texts. apply Forall_forall. intros x Hx. apply repeat_spec in Hx. subst.
    now exists 1. }
  split; [split; [exact H1|split; [exact H2|exact H3]]|].
  exact (evaluate_total encode cosine format_2f 1 H1 H2 H3 "" "Kubernetes, 3 years.").
Defined.

Lemma evaluate_endpoint_success_witness :
  let read_pdf := fun _ : list Byte.byte => PageTexts ["Python developer, 3 years."] in
  let encode := fun texts : list string =>
    mk_ndarray [List.length texts; 1%nat] (repeat (Fin 1) (List.length texts)) in
  let cosine := fun _ _ : list Q => 1 in
  let format_2f := fun _ : Q => "1.00" in
  let resume := {| filename := "CV.PDF"; content := [] |} in
  ((0 < 1)%nat /\
   (forall texts, texts <> [] -> shape (encode texts) = [List.length texts; 1%nat]) /\
   (forall texts, Forall is_fin (flat (encode texts))) /\
   lower (filename resume) = ("cv" ++ ".pdf")%string /\
   read_pdf (content resume) = PageTexts ["Python developer, 3 years."] /\
   ~ Forall (fun t => is_blank t = true) ["Python developer, 3 years."] /\
   is_blank "Python, 2 years." = false) /\
  exists result,
    handle read_pdf encode cosine format_2f MLService_init (PostEvaluate resume "Python, 2 years.") =
      (EvaluationResponse result, {| _pipeline_initialized := true |}) /\
    EvaluationResponse_valid result.
Proof.
  intros read_pdf encode cosine format_2f resume.
  assert (H1 : (0 < 1)%nat) by lia.
  assert (H2 : forall texts, texts <> [] -> shape (encode texts) = [List.length texts; 1%nat])
    by (intros; reflexivity).
  assert (H3 : forall texts, Forall is_fin (flat (encode texts))).
  { intros texts. apply Forall_forall. intros x Hx. apply repeat_spec in Hx. subst.
    now exists 1. }
  assert (H4 : lower (filename resume) = ("cv" ++ ".pdf")%string) by reflexivity.
  assert (H5 : read_pdf (content resume) = PageTexts ["Python developer, 3 years."])
    by reflexivity.
  assert (H6 : ~ Forall (fun t => is_blank t = true) ["Python developer, 3 years."]).
  { intros H. inversion H as [|? ? Hb _]. vm_compute in Hb. discriminate. }
  assert (H7 : is_blank "Python, 2 years." = false) by reflexivity.
  split; [repeat split; assumption|].
  exact (evaluate_endpoint_success read_pdf encode cosine format_2f 1 H1 H2 H3
           MLService_init resume "Python, 2 years." "cv" _ H4 H5 H6 H7).
Defined.

End AppProps.
